(** * Verificador-IA: the response extraction of the analysis service

    A shallow embedding of the service module of the repository (the file
    that exports [analyzeUrl], [analyzeText], [analyzeImage] and
    [analyzeVideo]) and of the JavaScript built-ins it calls:
    [String.prototype.replace] with a global literal pattern, [indexOf],
    [lastIndexOf], [substring] and [JSON.parse].

    The remote model call is not part of the program: its outcome (a
    rejected promise, or a response with an optional text and optional
    grounding metadata) is the input of the embedded functions.

    The second part embeds what the page does with the service: the
    handlers of [App] ([handleTabChange], [handleFileChange],
    [handleAnalyze], the text that [fileToBase64] resolves with) as
    functions on the state of the page, and the decisions of [ResultCard]
    (what it shows, and when rendering throws). *)

From Stdlib Require Import ZArith NArith String Ascii.
From stdpp Require Import base list gmap.

Local Open Scope Z_scope.

(** ** JavaScript strings *)

(** A JavaScript string is a finite sequence of UTF-16 code units. *)
Abbreviation jschar := N.
Abbreviation jsstring := (list N).

Module JSString.

(** The code unit of a character of the Latin-1 range. *)
Definition cu (a : ascii) : jschar := N_of_ascii a.

(** A string literal all of whose characters are in the ASCII range. *)
Definition lit (s : string) : jsstring := map N_of_ascii (list_ascii_of_string s).

Definition eqb (a b : jschar) : bool := N.eqb a b.

(** [strip_prefix pat s] is the rest of [s] after [pat] when [s] starts
    with [pat]. *)
Fixpoint strip_prefix (pat s : jsstring) : option jsstring :=
  match pat, s with
  | [], _ => Some s
  | _ :: _, [] => None
  | p :: pat', c :: s' => if eqb p c then strip_prefix pat' s' else None
  end.

Definition starts_with (pat s : jsstring) : bool :=
  match strip_prefix pat s with Some _ => true | None => false end.

(** [s.indexOf(pat)]: the index of the first occurrence of [pat] in [s],
    or [-1]. *)
Fixpoint indexOf_from (pat s : jsstring) (i : Z) : Z :=
  if starts_with pat s then i
  else match s with
       | [] => -1
       | _ :: s' => indexOf_from pat s' (i + 1)
       end.

Definition indexOf (s pat : jsstring) : Z := indexOf_from pat s 0.

(** [s.lastIndexOf(pat)]: the index of the last occurrence of [pat] in
    [s], or [-1]. *)
Fixpoint lastIndexOf_from (pat s : jsstring) (i last : Z) : Z :=
  let last' := if starts_with pat s then i else last in
  match s with
  | [] => last'
  | _ :: s' => lastIndexOf_from pat s' (i + 1) last'
  end.

Definition lastIndexOf (s pat : jsstring) : Z := lastIndexOf_from pat s 0 (-1).

(** [s.substring(a, b)]: both indices are clamped to [0 .. length s] and
    swapped when the first is the larger one. *)
Definition clamp (len x : Z) : Z := Z.max 0 (Z.min x len).

Definition substring (s : jsstring) (a b : Z) : jsstring :=
  let len := Z.of_nat (length s) in
  let a' := clamp len a in
  let b' := clamp len b in
  let from := Z.min a' b' in
  let to := Z.max a' b' in
  take (Z.to_nat (to - from)) (drop (Z.to_nat from) s).

(** [s.replace(/pat/g, rep)] for a pattern that is a non-empty literal
    (no regular-expression operator) and a replacement without [$]: the
    text is scanned from the left, each match is replaced and the scan
    resumes after the match, so matches do not overlap.  [skip] counts the
    code units of the current match that are still to be dropped. *)
Fixpoint replace_go (pat rep : jsstring) (skip : nat) (s : jsstring) : jsstring :=
  match s with
  | [] => []
  | c :: s' =>
      match skip with
      | S k => replace_go pat rep k s'
      | O =>
          if starts_with pat s
          then rep ++ replace_go pat rep (pred (length pat)) s'
          else c :: replace_go pat rep O s'
      end
  end.

Definition replace_g (s pat rep : jsstring) : jsstring := replace_go pat rep O s.

(** [s.includes(pat)] *)
Fixpoint includes (s pat : jsstring) : bool :=
  starts_with pat s ||
  match s with
  | [] => false
  | _ :: s' => includes s' pat
  end.

End JSString.

Import JSString.

(** ** JavaScript values *)

(** The decimal literal of a JSON number: [(-1)^dneg * dmant * 10^dexp].
    The conversion of the literal to an IEEE double is not part of the
    model; a value keeps the decimal it was read from (equal decimals are
    equal numbers). *)
Record decimal := Decimal { dneg : bool; dmant : N; dexp : Z }.

Definition decimal_of_N (n : N) : decimal := Decimal false n 0.

(** The values [JSON.parse] builds, and [undefined].  An object is the
    finite map of its own properties; an array carries, besides its
    elements, the named properties that were set on it. *)
Inductive JSValue :=
| JUndefined
| JNull
| JBool (b : bool)
| JNumber (d : decimal)
| JString (s : jsstring)
| JArray (elems : list JSValue) (named : gmap jsstring JSValue)
| JObject (props : gmap jsstring JSValue).

(** What a call can throw. *)
Inductive exn :=
| SyntaxError              (* thrown by JSON.parse *)
| TypeError                (* thrown by a property assignment on a primitive *)
| ApiError                 (* the rejection of the remote call *)
| Error (message : jsstring).

Inductive outcome (A : Type) :=
| Returned (a : A)
| Thrown (e : exn).
Arguments Returned {A} a.
Arguments Thrown {A} e.

#[global] Instance outcome_ret : MRet outcome := fun A a => Returned a.

#[global] Instance outcome_bind : MBind outcome := fun A B k m =>
  match m with
  | Returned a => k a
  | Thrown e => Thrown e
  end.

(** [try { m } catch (error) { h }]: the handlers of this program ignore the
    error they catch. *)
Definition try_catch {A} (m : outcome A) (h : outcome A) : outcome A :=
  match m with
  | Returned a => Returned a
  | Thrown _ => h
  end.

(** [o.k = x] in strict mode (the file is an ES module).  The key is never
    an array index nor [length] in this program. *)
Definition put (o : JSValue) (k : jsstring) (x : JSValue) : outcome JSValue :=
  match o with
  | JObject props => Returned (JObject (<[k := x]> props))
  | JArray elems named => Returned (JArray elems (<[k := x]> named))
  | _ => Thrown TypeError
  end.

(** ** JSON.parse *)

Module JSON.

Inductive presult (A : Type) :=
| POk (a : A) (rest : jsstring)
| PSyntaxError
| POutOfFuel.
Arguments POk {A} a rest.
Arguments PSyntaxError {A}.
Arguments POutOfFuel {A}.

Definition quote : jschar := 34%N.
Definition backslash : jschar := 92%N.

Definition is_char (a : ascii) (c : jschar) : bool := eqb c (cu a).
Arguments is_char a%_char c.

(** JSON white space: tab, line feed, carriage return, space. *)
Definition is_ws (c : jschar) : bool :=
  eqb c 9%N || eqb c 10%N || eqb c 13%N || eqb c 32%N.

Fixpoint skip_ws (s : jsstring) : jsstring :=
  match s with
  | c :: r => if is_ws c then skip_ws r else s
  | [] => []
  end.

Definition is_digit (c : jschar) : bool := (48 <=? c)%N && (c <=? 57)%N.

Definition digit_val (c : jschar) : N := (c - 48)%N.

Definition hex_val (c : jschar) : option N :=
  if (48 <=? c)%N && (c <=? 57)%N then Some (c - 48)%N
  else if (97 <=? c)%N && (c <=? 102)%N then Some (c - 87)%N
  else if (65 <=? c)%N && (c <=? 70)%N then Some (c - 55)%N
  else None.

Definition hex4 (a b c d : jschar) : option jschar :=
  match hex_val a, hex_val b, hex_val c, hex_val d with
  | Some x, Some y, Some z, Some w => Some (((x * 16 + y) * 16 + z) * 16 + w)%N
  | _, _, _, _ => None
  end.

(** The character a two-character escape stands for. *)
Definition simple_escape (e : jschar) : option jschar :=
  if eqb e quote then Some quote
  else if eqb e backslash then Some backslash
  else if is_char "/" e then Some (cu "/")
  else if is_char "b" e then Some 8%N
  else if is_char "f" e then Some 12%N
  else if is_char "n" e then Some 10%N
  else if is_char "r" e then Some 13%N
  else if is_char "t" e then Some 9%N
  else None.

Definition cons_char (c : jschar) (r : option (jsstring * jsstring))
  : option (jsstring * jsstring) :=
  match r with
  | Some (str, rest) => Some (c :: str, rest)
  | None => None
  end.

(** The characters of a string up to its closing quote, the opening
    quote already read. *)
Fixpoint parse_string_body (s : jsstring) : option (jsstring * jsstring) :=
  match s with
  | [] => None
  | c :: r =>
      if eqb c quote then Some ([], r)
      else if eqb c backslash then
        match r with
        | [] => None
        | e :: r1 =>
            if is_char "u" e then
              match r1 with
              | h1 :: h2 :: h3 :: h4 :: r2 =>
                  match hex4 h1 h2 h3 h4 with
                  | Some u => cons_char u (parse_string_body r2)
                  | None => None
                  end
              | _ => None
              end
            else
              match simple_escape e with
              | Some u => cons_char u (parse_string_body r1)
              | None => None
              end
        end
      else if (c <? 32)%N then None
      else cons_char c (parse_string_body r)
  end.

(** The longest prefix of digits, as the number it reads and its length. *)
Fixpoint span_digits (s : jsstring) (acc : N) (n : nat) : N * nat * jsstring :=
  match s with
  | c :: r => if is_digit c then span_digits r (acc * 10 + digit_val c)%N (S n)
              else (acc, n, s)
  | [] => (acc, n, [])
  end.

(** number = [-] int [frac] [exp] *)
Definition parse_number (s : jsstring) : presult JSValue :=
  let '(neg, s1) :=
    match s with
    | c :: r => if is_char "-" c then (true, r) else (false, s)
    | [] => (false, s)
    end in
  match s1 with
  | [] => PSyntaxError
  | c :: r =>
      if negb (is_digit c) then PSyntaxError
      else
        let '(int, _, s2) :=
          if is_char "0" c then (0%N, 1%nat, r) else span_digits s1 0%N 0%nat in
        let frac :=
          match s2 with
          | c2 :: r2 =>
              if is_char "." c2 then
                let '(m, n, s3) := span_digits r2 int 0%nat in
                match n with
                | O => None
                | S _ => Some (m, n, s3)
                end
              else Some (int, 0%nat, s2)
          | [] => Some (int, 0%nat, s2)
          end in
        match frac with
        | None => PSyntaxError
        | Some (m, n, s3) =>
            let finish (e : Z) (rest : jsstring) :=
              POk (JNumber (Decimal neg m (e - Z.of_nat n))) rest in
            match s3 with
            | c3 :: r3 =>
                if is_char "e" c3 || is_char "E" c3 then
                  let '(eneg, s4) :=
                    match r3 with
                    | c4 :: r4 =>
                        if is_char "-" c4 then (true, r4)
                        else if is_char "+" c4 then (false, r4)
                        else (false, r3)
                    | [] => (false, r3)
                    end in
                  let '(e, k, s5) := span_digits s4 0%N 0%nat in
                  match k with
                  | O => PSyntaxError
                  | S _ => finish (if eneg then - Z.of_N e else Z.of_N e) s5
                  end
                else finish 0 s3
            | [] => finish 0 s3
            end
        end
  end.

Definition parse_keyword (kw : jsstring) (v : JSValue) (s : jsstring) : presult JSValue :=
  match strip_prefix kw s with
  | Some rest => POk v rest
  | None => PSyntaxError
  end.

(** value, the elements of an array after its bracket, the members of an
    object after its brace.  A later member replaces an earlier one of the
    same name. *)
Fixpoint parse_value (fuel : nat) (s : jsstring) : presult JSValue :=
  match fuel with
  | O => POutOfFuel
  | S f =>
      match s with
      | [] => PSyntaxError
      | c :: r =>
          if is_char "{" c then
            match skip_ws r with
            | c' :: r' =>
                if is_char "}" c' then POk (JObject ∅) r'
                else parse_members f (c' :: r') ∅
            | [] => PSyntaxError
            end
          else if is_char "[" c then
            match skip_ws r with
            | c' :: r' =>
                if is_char "]" c' then POk (JArray [] ∅) r'
                else parse_elements f (c' :: r') []
            | [] => PSyntaxError
            end
          else if eqb c quote then
            match parse_string_body r with
            | Some (str, rest) => POk (JString str) rest
            | None => PSyntaxError
            end
          else if is_char "t" c then parse_keyword (lit "true") (JBool true) s
          else if is_char "f" c then parse_keyword (lit "false") (JBool false) s
          else if is_char "n" c then parse_keyword (lit "null") JNull s
          else parse_number s
      end
  end
with parse_elements (fuel : nat) (s : jsstring) (acc : list JSValue) : presult JSValue :=
  match fuel with
  | O => POutOfFuel
  | S f =>
      match parse_value f s with
      | POk v rest =>
          match skip_ws rest with
          | c :: r =>
              if is_char "," c then parse_elements f (skip_ws r) (acc ++ [v])
              else if is_char "]" c then POk (JArray (acc ++ [v]) ∅) r
              else PSyntaxError
          | [] => PSyntaxError
          end
      | PSyntaxError => PSyntaxError
      | POutOfFuel => POutOfFuel
      end
  end
with parse_members (fuel : nat) (s : jsstring) (acc : gmap jsstring JSValue)
  : presult JSValue :=
  match fuel with
  | O => POutOfFuel
  | S f =>
      match s with
      | [] => PSyntaxError
      | c :: r =>
          if negb (eqb c quote) then PSyntaxError
          else
            match parse_string_body r with
            | None => PSyntaxError
            | Some (k, r1) =>
                match skip_ws r1 with
                | [] => PSyntaxError
                | c2 :: r2 =>
                    if negb (is_char ":" c2) then PSyntaxError
                    else
                      match parse_value f (skip_ws r2) with
                      | POk v rest =>
                          match skip_ws rest with
                          | c3 :: r3 =>
                              if is_char "," c3
                              then parse_members f (skip_ws r3) (<[k := v]> acc)
                              else if is_char "}" c3
                              then POk (JObject (<[k := v]> acc)) r3
                              else PSyntaxError
                          | [] => PSyntaxError
                          end
                      | PSyntaxError => PSyntaxError
                      | POutOfFuel => POutOfFuel
                      end
                end
            end
      end
  end.

(** Each call of the three functions either fails or removes a character
    from the text before the next call, and a call on a text of [n]
    characters is nested at most twice per character: this much fuel is
    never used up ([parse_value_fuel_enough] below). *)
Definition fuel_for (s : jsstring) : nat := S (2 * length s).

(** [JSON.parse(text)] *)
Definition parse (text : jsstring) : outcome JSValue :=
  match parse_value (fuel_for text) (skip_ws text) with
  | POk v rest =>
      match skip_ws rest with
      | [] => Returned v
      | _ :: _ => Thrown SyntaxError
      end
  | _ => Thrown SyntaxError
  end.

End JSON.


(** ** The service *)

(** The part of the reply of [models.generateContent] that the service
    reads. Every field is optional in the client library's types. *)
Record GroundingChunkWeb := { uri : option jsstring; title : option jsstring }.
Record GroundingChunk := { web : option GroundingChunkWeb }.
Record GroundingMetadata := { groundingChunks : option (list GroundingChunk) }.
Record Candidate := { groundingMetadata : option GroundingMetadata }.
Record GenerateContentResponse :=
  { text : option jsstring; candidates : option (list Candidate) }.

(** The awaited call either throws (the promise is rejected) or yields a
    response. The request (model name, prompt, configuration) has no part
    in what the functions below do with the reply. *)
Definition ApiReply := outcome GenerateContentResponse.

(** A string literal between double quotes, as it stands in a JSON text. *)
Definition quoted (s : string) : jsstring := JSON.quote :: lit s ++ [JSON.quote].

Definition a_acute : jschar := 225%N.

(** [x || d] on an optional string: [undefined] and the empty string are
    falsy. *)
Definition or_default (x : option jsstring) (d : jsstring) : jsstring :=
  match x with
  | Some (c :: s) => c :: s
  | Some [] => d
  | None => d
  end.

(** [x] as a value, [undefined] when absent. *)
Definition opt_string (x : option jsstring) : JSValue :=
  match x with
  | Some s => JString s
  | None => JUndefined
  end.

(** Line 68: [jsonText.replace(/```json/g, '').replace(/```/g, '')] *)
Definition stripFences (jsonText : jsstring) : jsstring :=
  replace_g (replace_g jsonText (lit "```json") []) (lit "```") [].

(** Lines 71-75: the text between the first opening brace and the last
    closing brace when both exist, the text itself otherwise. *)
Definition sliceBraces (jsonText : jsstring) : jsstring :=
  let firstBrace := indexOf jsonText (lit "{") in
  let lastBrace := lastIndexOf jsonText (lit "}") in
  if negb (firstBrace =? -1) && negb (lastBrace =? -1)
  then substring jsonText firstBrace (lastBrace + 1)
  else jsonText.

(** Lines 65-75: the text handed to [JSON.parse] by [analyzeUrl]. *)
Definition jsonCandidate (response_text : option jsstring) : jsstring :=
  sliceBraces (stripFences (or_default response_text (lit "{}"))).

(** Line 79: [response.candidates?.[0]?.groundingMetadata?.groundingChunks] *)
Definition responseChunks (response : GenerateContentResponse)
  : option (list GroundingChunk) :=
  cs ← candidates response; c ← head cs; m ← groundingMetadata c; groundingChunks m.

(** Line 84: [{ uri: web!.uri!, title: web!.title || 'Fuente' }] *)
Definition sourceOf (w : GroundingChunkWeb) : JSValue :=
  JObject (<[lit "uri" := opt_string (uri w)]>
          (<[lit "title" := JString (or_default (title w) (lit "Fuente"))]> ∅)).

(** Lines 81-84: [map(chunk => chunk.web)], [filter(web => web !== undefined)],
    [map(web => ...)] *)
Definition sourcesOf (chunks : list GroundingChunk) : list JSValue :=
  map sourceOf (omap web chunks).

(** Lines 65-86: the body of the [try] of [analyzeUrl] once the call has
    been awaited. *)
Definition extractUrl (response : GenerateContentResponse) : outcome JSValue :=
  result ← JSON.parse (jsonCandidate (text response));
  match responseChunks response with
  | Some chunks => put result (lit "sources") (JArray (sourcesOf chunks) ∅)
  | None => Returned result
  end.

(** Lines 90-96: the object returned by the [catch] of [analyzeUrl]. *)
Definition fallbackResult : JSValue :=
  JObject
    (<[lit "isAiGenerated" := JBool false]>
    (<[lit "confidenceScore" := JNumber (decimal_of_N 0)]>
    (<[lit "verdict" := JString (lit "Mixed/Uncertain")]>
    (<[lit "reasoning" :=
         JString (lit "No se pudo analizar el enlace correctamente. Es posible que el contenido sea inaccesible o la respuesta del modelo no fue v"
                  ++ a_acute :: lit "lida.")]>
    (<[lit "indicators" :=
         JArray [JString (lit "Error de an" ++ a_acute :: lit "lisis")] ∅]> ∅))))).

Definition analyzeUrl (reply : ApiReply) : outcome JSValue :=
  try_catch (response ← reply; extractUrl response)
            (Returned fallbackResult).

(** Lines 112, 136 and 160: [JSON.parse(response.text || "{}")] *)
Definition parseReply (response : GenerateContentResponse) : outcome JSValue :=
  JSON.parse (or_default (text response) (lit "{}")).

Definition analyzeText (reply : ApiReply) : outcome JSValue :=
  try_catch (response ← reply; parseReply response)
            (Thrown (Error (lit "Error al analizar texto."))).

Definition analyzeImage (reply : ApiReply) : outcome JSValue :=
  try_catch (response ← reply; parseReply response)
            (Thrown (Error (lit "Error al analizar imagen."))).

Definition analyzeVideo (reply : ApiReply) : outcome JSValue :=
  try_catch (response ← reply; parseReply response)
            (Thrown (Error (lit "Error al analizar video."))).

(** The five fields of [AnalysisResult] that the schema requires. *)
Definition requiredFields : list jsstring :=
  [lit "isAiGenerated"; lit "confidenceScore"; lit "verdict"; lit "reasoning";
   lit "indicators"].

(** The three literals of the [verdict] type. *)
Definition verdictLiterals : list jsstring :=
  [lit "Human"; lit "AI"; lit "Mixed/Uncertain"].

(** A reply that carries a text and no candidates, and one that also
    carries grounding chunks. *)
Definition textReply (t : option jsstring) : ApiReply :=
  Returned {| text := t; candidates := None |}.

Definition groundedReply (t : option jsstring) (chunks : list GroundingChunk) : ApiReply :=
  Returned {| text := t;
              candidates := Some [ {| groundingMetadata :=
                                        Some {| groundingChunks := Some chunks |} |} ] |}.

(** [rest] is what is left of [s] after at least one character was read. *)
Definition consumes (s rest : jsstring) : Prop :=
  rest `suffix_of` s ∧ (length rest < length s)%nat.

(** ** The texts and values of the examples *)

Definition braceFree (s : jsstring) : Prop := (123%N ∉ s) ∧ (125%N ∉ s).

(** The text of the spec's third example: prose, a json fence on its own
    line, the payload, the closing fence on its own line, prose. *)
Definition inProse (pre payload post : jsstring) : jsstring :=
  pre ++ lit "```json" ++ 10%N :: payload ++ 10%N :: lit "```" ++ post.

(** A fenced code block that holds exactly [payload], with the [json] tag
    and without a tag. *)
Definition fencedJson (payload : jsstring) : jsstring :=
  lit "```json" ++ 10%N :: payload ++ 10%N :: lit "```".

Definition fencedBare (payload : jsstring) : jsstring :=
  lit "```" ++ 10%N :: payload ++ 10%N :: lit "```".

(** [{"isAiGenerated":true,"confidenceScore":87,"verdict":"AI","reasoning":"r","indicators":["a","b"]}] *)
Definition examplePayload : jsstring :=
  lit "{" ++ quoted "isAiGenerated" ++ lit ":true,"
    ++ quoted "confidenceScore" ++ lit ":87,"
    ++ quoted "verdict" ++ lit ":" ++ quoted "AI" ++ lit ","
    ++ quoted "reasoning" ++ lit ":" ++ quoted "r" ++ lit ","
    ++ quoted "indicators" ++ lit ":[" ++ quoted "a" ++ lit "," ++ quoted "b" ++ lit "]}".

Definition exampleProps : gmap jsstring JSValue :=
  <[lit "isAiGenerated" := JBool true]>
  (<[lit "confidenceScore" := JNumber (decimal_of_N 87)]>
  (<[lit "verdict" := JString (lit "AI")]>
  (<[lit "reasoning" := JString (lit "r")]>
  (<[lit "indicators" := JArray [JString (lit "a"); JString (lit "b")] ∅]> ∅)))).

(** The same payload with the verdict [Robot]. *)
Definition robotPayload : jsstring :=
  lit "{" ++ quoted "isAiGenerated" ++ lit ":true,"
    ++ quoted "confidenceScore" ++ lit ":87,"
    ++ quoted "verdict" ++ lit ":" ++ quoted "Robot" ++ lit ","
    ++ quoted "reasoning" ++ lit ":" ++ quoted "r" ++ lit ","
    ++ quoted "indicators" ++ lit ":[" ++ quoted "a" ++ lit "," ++ quoted "b" ++ lit "]}".

(** The same payload without [confidenceScore]. *)
Definition scorelessPayload : jsstring :=
  lit "{" ++ quoted "isAiGenerated" ++ lit ":true,"
    ++ quoted "verdict" ++ lit ":" ++ quoted "AI" ++ lit ","
    ++ quoted "reasoning" ++ lit ":" ++ quoted "r" ++ lit ","
    ++ quoted "indicators" ++ lit ":[" ++ quoted "a" ++ lit "," ++ quoted "b" ++ lit "]}".

(** The grounding references [[{web:{uri:"https://x", title:"X"}}, {web:undefined}]] *)
Definition exampleChunks : list GroundingChunk :=
  [ {| web := Some {| uri := Some (lit "https://x"); title := Some (lit "X") |} |};
    {| web := None |} ].

Definition source (u : JSValue) (t : jsstring) : JSValue :=
  JObject (<[lit "uri" := u]> (<[lit "title" := JString t]> ∅)).

(** ** Reading values *)

(** Whether the double that a decimal literal is converted to is zero:
    the literal is zero or its value is at most [2^-1075], half of the
    least positive double (the conversion rounds to nearest, ties to
    even). *)
Definition rounds_to_zero (d : decimal) : bool :=
  (dmant d =? 0)%N
  || ((dexp d <? 0) && (Z.of_N (dmant d) * 2 ^ 1075 <=? 10 ^ (- dexp d))).

(** [ToBoolean] *)
Definition truthy (v : JSValue) : bool :=
  match v with
  | JUndefined | JNull => false
  | JBool b => b
  | JNumber d => negb (rounds_to_zero d)
  | JString s => match s with [] => false | _ :: _ => true end
  | JArray _ _ | JObject _ => true
  end.

(** [v.k] for a name [k] that no prototype defines (none of the names this
    program reads is the name of a built-in property, an index or
    [length]). *)
Definition getProp (v : JSValue) (k : jsstring) : outcome JSValue :=
  match v with
  | JUndefined | JNull => Thrown TypeError
  | JObject props => Returned (default JUndefined (props !! k))
  | JArray _ named => Returned (default JUndefined (named !! k))
  | JBool _ | JNumber _ | JString _ => Returned JUndefined
  end.

(** [v === 'literal'] *)
Definition isString (v : JSValue) (s : jsstring) : bool :=
  match v with
  | JString t => bool_decide (t = s)
  | _ => false
  end.

(** The elements that [v.map(f)] visits: [v] has to be an array whose [map]
    is the one of the prototype; any other value has no callable [map]. *)
Definition mapElements (v : JSValue) : outcome (list JSValue) :=
  match v with
  | JArray elems named =>
      match named !! lit "map" with
      | None => Returned elems
      | Some _ => Thrown TypeError
      end
  | _ => Thrown TypeError
  end.

(** [xs.map(f)] for a callback that may throw. *)
Fixpoint mapM {A B} (f : A → outcome B) (xs : list A) : outcome (list B) :=
  match xs with
  | [] => Returned []
  | x :: xs' => y ← f x; ys ← mapM f xs'; Returned (y :: ys)
  end.

(** ** The result card *)

(** What the component shows: the colour of the frame and of the heading,
    the heading, the values put in the score, the reasoning and the list of
    indicators, and the sources. *)
Inductive SourcesChild :=
| SourcesList (links : list (JSValue * JSValue))   (* href and text of each link *)
| SourcesValue (v : JSValue).                      (* the falsy value of [result.sources] *)

Record CardView := {
  colorClass : jsstring;
  heading : jsstring;
  score : JSValue;
  reasoning : JSValue;
  indicators : list JSValue;
  sources : SourcesChild
}.

Inductive Rendered :=
| Spinner
| Nothing
| Card (view : CardView).

(** Line 46: the link of a source. *)
Definition sourceLink (s : JSValue) : outcome (JSValue * JSValue) :=
  u ← getProp s (lit "uri"); t ← getProp s (lit "title"); Returned (u, t).

(** Lines 11-53 *)
Definition ResultCard (result : JSValue) (loading : bool) : outcome Rendered :=
  if loading then Returned Spinner
  else if negb (truthy result) then Returned Nothing
  else
    verdict ← getProp result (lit "verdict");
    let isAi := isString verdict (lit "AI") in
    let colorClass :=
      if isAi then lit "rose"
      else if isString verdict (lit "Human") then lit "emerald" else lit "yellow" in
    let heading :=
      if isString verdict (lit "AI") then lit "Probablemente IA"
      else if isString verdict (lit "Human") then lit "Probablemente Humano"
      else lit "Incierto" in
    score ← getProp result (lit "confidenceScore");
    reasoning ← getProp result (lit "reasoning");
    inds ← getProp result (lit "indicators");
    indicators ← mapElements inds;
    srcs ← getProp result (lit "sources");
    sources ←
      (if truthy srcs
       then elems ← mapElements srcs; links ← mapM sourceLink elems;
            Returned (SourcesList links)
       else Returned (SourcesValue srcs));
    Returned (Card {| colorClass := colorClass; heading := heading; score := score;
                      reasoning := reasoning; indicators := indicators;
                      sources := sources |}).

(** What React accepts as a child of an element: a string, a number, a
    boolean, null or undefined, and an array of such; a plain object as a
    child makes React throw when it renders the element. *)
Fixpoint renderable (v : JSValue) : bool :=
  match v with
  | JObject _ => false
  | JArray elems _ => forallb renderable elems
  | _ => true
  end.

(** The children that the card puts in its elements are all accepted by
    React: the score, the reasoning, each indicator, and the text of each
    link or the value in place of the sources. *)
Definition childrenRenderable (view : CardView) : bool :=
  renderable (score view) && renderable (reasoning view)
  && forallb renderable (indicators view)
  && match sources view with
     | SourcesList links => forallb (λ link, renderable link.2) links
     | SourcesValue v => renderable v
     end.

(** ** The page *)

(** [s.split(sep)] for a non-empty separator: the pieces between the
    occurrences of [sep], scanned from the left. [cur] is the piece being
    read and [skip] counts the code units of the current separator that are
    still to be dropped. *)
Fixpoint split_go (sep : jsstring) (skip : nat) (s cur : jsstring) : list jsstring :=
  match s with
  | [] => [cur]
  | c :: s' =>
      match skip with
      | S k => split_go sep k s' cur
      | O =>
          if starts_with sep s
          then cur :: split_go sep (pred (length sep)) s' []
          else split_go sep O s' (cur ++ [c])
      end
  end.

Definition split (s sep : jsstring) : list jsstring := split_go sep O s [].

(** Line 80: [(reader.result as string).split(',')[1]], what [fileToBase64]
    resolves with; [None] is [undefined]. *)
Definition base64Of (readerResult : jsstring) : option jsstring :=
  split readerResult (lit ",") !! 1%nat.

(** White space and line terminators, the characters [trim] removes. *)
Definition isTrimmed (c : jschar) : bool :=
  bool_decide (c ∈ [9; 10; 11; 12; 13; 32; 160; 5760; 8232; 8233; 8239; 8287;
                    12288; 65279]%N)
  || ((8192 <=? c)%N && (c <=? 8202)%N).

Fixpoint trimStart (s : jsstring) : jsstring :=
  match s with
  | c :: s' => if isTrimmed c then trimStart s' else s
  | [] => []
  end.

(** [s.trim()] *)
Definition trim (s : jsstring) : jsstring := rev (trimStart (rev (trimStart s))).

(** The part of a [File] that the page reads. *)
Record File := { fileSize : Z; fileType : jsstring }.

(** The state of [App]; [result] is [JNull] when there is none. *)
Record AppState := {
  activeTab : jsstring;
  inputText : jsstring;
  selectedFile : option File;
  previewUrl : option jsstring;
  loading : bool;
  result : JSValue;
  error : option jsstring
}.

Definition initialState : AppState :=
  {| activeTab := lit "URL"; inputText := []; selectedFile := None;
     previewUrl := None; loading := false; result := JNull; error := None |}.

(** Lines 95-102 *)
Definition handleTabChange (tab : jsstring) (st : AppState) : AppState :=
  {| activeTab := tab; result := JNull; error := None; inputText := [];
     selectedFile := None; previewUrl := None; loading := loading st |}.

Definition maxFileSize : Z := 10 * 1024 * 1024.

Definition tooLargeMessage : jsstring :=
  lit "El archivo es demasiado grande (M" ++ a_acute :: lit "x 10MB).".

(** Lines 104-116: [files] is [e.target.files] and [objectUrl] what
    [URL.createObjectURL] returns for the file. *)
Definition handleFileChange (files : option (list File)) (objectUrl : jsstring)
    (st : AppState) : AppState :=
  match files with
  | Some (file :: _) =>
      if maxFileSize <? fileSize file
      then {| activeTab := activeTab st; inputText := inputText st;
              selectedFile := selectedFile st; previewUrl := previewUrl st;
              loading := loading st; result := result st;
              error := Some tooLargeMessage |}
      else {| activeTab := activeTab st; inputText := inputText st;
              selectedFile := Some file; previewUrl := Some objectUrl;
              loading := loading st; result := JNull; error := None |}
  | _ => st
  end.

(** What the [catch] of [handleAnalyze] can receive: an error object, or
    the event with which the file reader rejects, which has no [message]. *)
Inductive caught :=
| CaughtError (e : exn)
| CaughtEvent.

(** What reading the selected file gives: the data URL, or the rejection. *)
Inductive FileRead :=
| ReadDone (readerResult : jsstring)
| ReadFailed.

Section Page.

(** The text of the [message] of the errors that the engine and the client
    library create; it is not empty. *)
Variable engineMessage : exn → jsstring.

Definition messageOf (e : exn) : jsstring :=
  match e with
  | Error m => m
  | _ => engineMessage e
  end.

(** Line 147: [err.message || "Error inesperado."] *)
Definition shownMessage (c : caught) : jsstring :=
  match c with
  | CaughtError e => or_default (Some (messageOf e)) (lit "Error inesperado.")
  | CaughtEvent => lit "Error inesperado."
  end.

Definition throwError (m : jsstring) : caught + JSValue := inl (CaughtError (Error m)).

Definition awaited (o : outcome JSValue) : caught + JSValue :=
  match o with
  | Returned v => inr v
  | Thrown e => inl (CaughtError e)
  end.

(** Lines 124-144: the body of the [try]; [reply] is the reply of the model
    to the request that is sent, [read] what reading the file gives. *)
Definition analysis (reply : ApiReply) (read : FileRead) (st : AppState)
  : caught + JSValue :=
  if bool_decide (activeTab st = lit "URL") then
    if bool_decide (trim (inputText st) = [])
    then throwError (lit "Ingresa un enlace v" ++ a_acute :: lit "lido.")
    else awaited (analyzeUrl reply)
  else if bool_decide (activeTab st = lit "TEXT") then
    if bool_decide (trim (inputText st) = [])
    then throwError (lit "Ingresa texto.")
    else awaited (analyzeText reply)
  else if bool_decide (activeTab st = lit "IMAGE") then
    match selectedFile st with
    | None => throwError (lit "Selecciona una imagen.")
    | Some _ =>
        match read with
        | ReadFailed => inl CaughtEvent
        | ReadDone _ => awaited (analyzeImage reply)
        end
    end
  else if bool_decide (activeTab st = lit "VIDEO") then
    match selectedFile st with
    | None => throwError (lit "Selecciona un video.")
    | Some _ =>
        match read with
        | ReadFailed => inl CaughtEvent
        | ReadDone _ => awaited (analyzeVideo reply)
        end
    end
  else throwError (lit "Tipo no soportado").

(** Lines 118-151: the state once the handler has run to its end, no other
    event having changed the state meanwhile. *)
Definition handleAnalyze (reply : ApiReply) (read : FileRead) (st : AppState)
  : AppState :=
  match analysis reply read st with
  | inr analysisResult =>
      {| activeTab := activeTab st; inputText := inputText st;
         selectedFile := selectedFile st; previewUrl := previewUrl st;
         loading := false; result := analysisResult; error := None |}
  | inl err =>
      {| activeTab := activeTab st; inputText := inputText st;
         selectedFile := selectedFile st; previewUrl := previewUrl st;
         loading := false; result := JNull; error := Some (shownMessage err) |}
  end.

End Page.

(** The messages that [handleAnalyze] itself throws. *)
Definition validationMessages : list jsstring :=
  [ lit "Ingresa un enlace v" ++ a_acute :: lit "lido."; lit "Ingresa texto.";
    lit "Selecciona una imagen."; lit "Selecciona un video."; lit "Tipo no soportado" ].

(** * Properties *)

(** A closed decidable proposition, by evaluation of its decision. *)
Ltac by_decide := apply (bool_decide_unpack _); vm_compute; exact I.

(** Two closed values that differ at a visible place. *)
Ltac by_decide_neq := let H := fresh in intros H; vm_compute in H; discriminate H.

(** ** Strings: prefixes, search and replacement *)

Section StringFacts.

Implicit Types (s t pat rep : jsstring) (c x : jschar).

Lemma eqb_true c x : eqb c x = true <-> c = x.
Proof. apply N.eqb_eq. Qed.

Lemma eqb_false c x : eqb c x = false <-> c <> x.
Proof. apply N.eqb_neq. Qed.

Lemma strip_prefix_Some pat s r : strip_prefix pat s = Some r <-> s = pat ++ r.
Proof.
  revert s. induction pat as [|p pat IH]; intros s; simpl.
  - split; congruence.
  - destruct s as [|c s]; [split; discriminate|].
    destruct (eqb p c) eqn:E.
    + apply eqb_true in E as ->. rewrite IH. split; congruence.
    + apply eqb_false in E. split; [discriminate | congruence].
Qed.

Lemma starts_with_true pat s : starts_with pat s = true <-> exists r, s = pat ++ r.
Proof.
  unfold starts_with. destruct (strip_prefix pat s) as [r|] eqn:E.
  - apply strip_prefix_Some in E. split; eauto.
  - split; [discriminate|]. intros [r Hr].
    apply strip_prefix_Some in Hr. congruence.
Qed.

Lemma starts_with_app pat r : starts_with pat (pat ++ r) = true.
Proof. apply starts_with_true. eauto. Qed.

Lemma starts_with_cons p pat c s :
  starts_with (p :: pat) (c :: s) = eqb p c && starts_with pat s.
Proof. unfold starts_with. simpl. destruct (eqb p c); reflexivity. Qed.

Lemma starts_with_nil_r p pat : starts_with (p :: pat) [] = false.
Proof. reflexivity. Qed.

(** *** replace *)

Lemma replace_go_drop pat rep k s :
  replace_go pat rep k s = replace_go pat rep O (drop k s).
Proof.
  revert k. induction s as [|c s IH]; intros [|k]; try reflexivity.
  simpl replace_go at 1. rewrite IH. reflexivity.
Qed.

Lemma replace_g_nil pat rep : replace_g [] pat rep = [].
Proof. reflexivity. Qed.

(** The scan resumes after a match. *)
Lemma replace_g_match p pat rep r :
  replace_g ((p :: pat) ++ r) (p :: pat) rep = rep ++ replace_g r (p :: pat) rep.
Proof.
  unfold replace_g. change ((p :: pat) ++ r) with (p :: (pat ++ r)).
  cbn [replace_go].
  change (p :: (pat ++ r)) with ((p :: pat) ++ r).
  rewrite starts_with_app, replace_go_drop. cbn [length pred].
  rewrite drop_app_length. reflexivity.
Qed.

Lemma replace_g_skip pat rep c s :
  starts_with pat (c :: s) = false ->
  replace_g (c :: s) pat rep = c :: replace_g s pat rep.
Proof. unfold replace_g. cbn [replace_go]. intros ->. reflexivity. Qed.

(** Every text is a match followed by a text, or a non-match character
    followed by a text, or empty: the induction scheme of the scan. *)
Lemma scan_ind (p : jschar) (pat : jsstring) (P : list N -> Prop) :
  P [] ->
  (forall r : list N, P r -> P ((p :: pat) ++ r)) ->
  (forall (c : N) (s : list N),
      starts_with (p :: pat) (c :: s) = false -> P s -> P (c :: s)) ->
  forall s : list N, P s.
Proof.
  intros Hnil Hmatch Hskip s.
  remember (length s) as n eqn:Hn. revert s Hn.
  induction n as [n IH] using lt_wf_ind. intros s Hn.
  destruct s as [|c s]; [exact Hnil|].
  destruct (starts_with (p :: pat) (c :: s)) eqn:E.
  - apply starts_with_true in E as [r Hr]. rewrite Hr.
    apply Hmatch. eapply IH; [|reflexivity].
    subst n. rewrite Hr, length_app. simpl. lia.
  - apply Hskip; [exact E|]. eapply IH; [|reflexivity]. subst n. simpl. lia.
Qed.

(** Removal only deletes: the result is a subsequence of the text. *)
Lemma replace_g_sublist p pat s : sublist (replace_g s (p :: pat) []) s.
Proof.
  induction s as [|r IH|c s E IH] using (scan_ind p pat).
  - constructor.
  - rewrite replace_g_match. simpl.
    change (p :: pat ++ r) with ((p :: pat) ++ r). by apply sublist_inserts_l.
  - rewrite replace_g_skip by done. by constructor.
Qed.

(** A text without a match is left as it is. *)
Lemma includes_false_cons s pat c :
  includes (c :: s) pat = false ->
  starts_with pat (c :: s) = false /\ includes s pat = false.
Proof. simpl. intros H. by apply orb_false_iff in H. Qed.

Lemma replace_g_id pat rep s : includes s pat = false -> replace_g s pat rep = s.
Proof.
  induction s as [|c s IH]; [done|]. intros H.
  apply includes_false_cons in H as [H1 H2].
  rewrite replace_g_skip by done. by rewrite IH.
Qed.

Lemma starts_with_includes s pat : starts_with pat s = true -> includes s pat = true.
Proof. intros H. destruct s; simpl; by rewrite H. Qed.

Lemma includes_true s pat :
  includes s pat = true <-> exists a b, s = a ++ pat ++ b.
Proof.
  split.
  - induction s as [|c s IH]; simpl; intros H.
    + rewrite orb_false_r in H. apply starts_with_true in H as [r Hr].
      exists [], r. done.
    + apply orb_true_iff in H as [H|H].
      * apply starts_with_true in H as [r Hr]. exists [], r. done.
      * destruct (IH H) as (a & b & ->). exists (c :: a), b. done.
  - intros (a & b & ->). induction a as [|c a IH].
    + change ([] ++ pat ++ b) with (pat ++ b).
      apply starts_with_includes, starts_with_app.
    + simpl. simpl in IH. rewrite IH. apply orb_true_r.
Qed.

Lemma includes_false_app_l s t pat : includes (s ++ t) pat = false -> includes s pat = false.
Proof.
  intros H. destruct (includes s pat) eqn:E; [|done].
  apply includes_true in E as (a & b & ->).
  assert (includes ((a ++ pat ++ b) ++ t) pat = true); [|congruence].
  apply includes_true. exists a, (b ++ t). by rewrite <- !app_assoc.
Qed.

Lemma includes_false_app_r s t pat : includes (s ++ t) pat = false -> includes t pat = false.
Proof.
  intros H. destruct (includes t pat) eqn:E; [|done].
  apply includes_true in E as (a & b & ->).
  assert (includes (s ++ a ++ pat ++ b) pat = true); [|congruence].
  apply includes_true. exists (s ++ a), b. by rewrite <- !app_assoc.
Qed.

Lemma includes_false_take s pat n : includes s pat = false -> includes (take n s) pat = false.
Proof. rewrite <- (take_drop n s) at 1. apply includes_false_app_l. Qed.

Lemma includes_false_drop s pat n : includes s pat = false -> includes (drop n s) pat = false.
Proof. rewrite <- (take_drop n s) at 1. apply includes_false_app_r. Qed.

Lemma includes_false_substring s pat a b :
  includes s pat = false -> includes (substring s a b) pat = false.
Proof. intros H. unfold substring. by apply includes_false_take, includes_false_drop. Qed.

(** A text that has no occurrence of a prefix of the pattern has none of
    the pattern. *)
Lemma includes_false_longer s pat ext :
  includes s pat = false -> includes s (pat ++ ext) = false.
Proof.
  intros H. destruct (includes s (pat ++ ext)) eqn:E; [|done].
  apply includes_true in E as (a & b & ->).
  assert (includes (a ++ (pat ++ ext) ++ b) pat = true); [|congruence].
  apply includes_true. exists a, (ext ++ b). by rewrite <- !app_assoc.
Qed.

End StringFacts.

(** ** Removal of a run pattern, and characters outside the pattern *)

Section Removal.

Implicit Types (s t pat : jsstring) (c x : jschar).

(** With a pattern that repeats one character, a run that is shorter
    than the pattern and heads the cleaned text already headed the
    text. *)
Lemma run_preserved c n m s :
  (m <= n)%nat ->
  starts_with (replicate m c) (replace_g s (c :: replicate n c) []) = true ->
  starts_with (replicate m c) s = true.
Proof.
  revert m. induction s as [|r IH|x s E IH] using (scan_ind c (replicate n c));
    intros m Hm H.
  - exact H.
  - apply starts_with_true.
    exists (replicate (S n - m) c ++ r).
    rewrite app_assoc, <- replicate_add.
    by replace (m + (S n - m))%nat with (S n) by lia.
  - rewrite replace_g_skip in H by done.
    destruct m as [|m]; [done|].
    simpl replicate in *. rewrite starts_with_cons in *.
    apply andb_true_iff in H as [-> H]. simpl.
    apply IH; [lia | done].
Qed.

(** Removing the occurrences of a run pattern leaves none: the removal of
    a match cannot join its neighbours into a new one. *)
Lemma replace_g_run_free c n s :
  includes (replace_g s (c :: replicate n c) []) (c :: replicate n c) = false.
Proof.
  induction s as [|r IH|x s E IH] using (scan_ind c (replicate n c)).
  - reflexivity.
  - by rewrite replace_g_match.
  - rewrite replace_g_skip by done.
    cbn [includes]. rewrite IH, orb_false_r.
    rewrite starts_with_cons in *.
    destruct (eqb c x); [simpl in *|done].
    destruct (starts_with (replicate n c) (replace_g s (c :: replicate n c) []))
      eqn:F; [|done].
    apply run_preserved in F; [congruence | lia].
Qed.

Lemma starts_with_app_sep pat a x b :
  x ∉ pat -> starts_with pat (a ++ x :: b) = true -> starts_with pat a = true.
Proof.
  revert a. induction pat as [|q pat IH]; intros a Hx H; [done|].
  apply not_elem_of_cons in Hx as [Hq Hx].
  destruct a as [|y a]; simpl app in H; rewrite starts_with_cons in *.
  - apply andb_true_iff in H as [H _]. apply eqb_true in H. congruence.
  - apply andb_true_iff in H as [-> H]. simpl. by apply IH.
Qed.

(** A character that is not in the pattern separates the scan: no match
    spans it. *)
Lemma replace_g_sep p pat a x b :
  x ∉ p :: pat ->
  replace_g (a ++ x :: b) (p :: pat) [] =
  replace_g a (p :: pat) [] ++ x :: replace_g b (p :: pat) [].
Proof.
  intros Hx. induction a as [|r IH|c s E IH] using (scan_ind p pat).
  - simpl app. rewrite replace_g_skip; [done|].
    rewrite starts_with_cons. apply not_elem_of_cons in Hx as [Hx _].
    assert (eqb p x = false) as ->; [|done]. apply eqb_false. congruence.
  - rewrite <- app_assoc, !replace_g_match. by rewrite IH.
  - rewrite (replace_g_skip _ _ c s) by done.
    simpl app. rewrite replace_g_skip; [by rewrite IH|].
    destruct (starts_with (p :: pat) (c :: s ++ x :: b)) eqn:F; [|done].
    apply (starts_with_app_sep _ (c :: s)) in F; [congruence | done].
Qed.

(** A character that is not in the pattern stays in the text. *)
Lemma replace_g_keeps p pat x s :
  x ∉ p :: pat -> x ∈ s -> x ∈ replace_g s (p :: pat) [].
Proof.
  intros Hx. induction s as [|r IH|c s E IH] using (scan_ind p pat); intros H.
  - done.
  - rewrite replace_g_match. apply elem_of_app in H as [H|H]; [done|by apply IH].
  - rewrite replace_g_skip by done.
    apply elem_of_cons in H as [->|H]; [left | right; by apply IH].
Qed.

Lemma replace_g_elem_of p pat x s : x ∈ replace_g s (p :: pat) [] -> x ∈ s.
Proof. intros H. eapply elem_of_sublist; [exact H | apply replace_g_sublist]. Qed.

End Removal.

(** ** Positions of a character *)

Section Positions.

Implicit Types (s a b m : jsstring) (c : jschar).

Lemma starts_with_single c s : starts_with [c] s = true <-> exists r, s = c :: r.
Proof. rewrite starts_with_true. done. Qed.

Lemma starts_with_single_notin c s : c ∉ s -> starts_with [c] s = false.
Proof.
  intros H. destruct (starts_with [c] s) eqn:E; [|done].
  apply starts_with_single in E as [r ->]. exfalso. apply H. left.
Qed.

Lemma indexOf_from_notin c s i : c ∉ s -> indexOf_from [c] s i = -1.
Proof.
  revert i. induction s as [|x s IH]; intros i H; [done|].
  cbn [indexOf_from]. rewrite starts_with_single_notin by done.
  apply IH. by apply not_elem_of_cons in H as [_ H].
Qed.

Lemma indexOf_from_first c a b i :
  c ∉ a -> indexOf_from [c] (a ++ c :: b) i = i + Z.of_nat (length a).
Proof.
  revert i. induction a as [|x a IH]; intros i H.
  - simpl. rewrite starts_with_cons. unfold eqb. rewrite N.eqb_refl. simpl. lia.
  - apply not_elem_of_cons in H as [Hx H].
    simpl app. cbn [indexOf_from]. rewrite starts_with_cons.
    assert (eqb c x = false) as -> by by apply eqb_false.
    simpl andb. cbv iota. rewrite IH by done. simpl length. lia.
Qed.

Lemma lastIndexOf_from_notin c s i last :
  c ∉ s -> lastIndexOf_from [c] s i last = last.
Proof.
  revert i. induction s as [|x s IH]; intros i H; [done|].
  cbn [lastIndexOf_from]. rewrite starts_with_single_notin by done.
  apply IH. by apply not_elem_of_cons in H as [_ H].
Qed.

Lemma lastIndexOf_from_last c a b i last :
  c ∉ b -> lastIndexOf_from [c] (a ++ c :: b) i last = i + Z.of_nat (length a).
Proof.
  revert i last. induction a as [|x a IH]; intros i last H.
  - simpl app. cbn [lastIndexOf_from]. rewrite starts_with_cons.
    unfold eqb. rewrite N.eqb_refl. simpl andb. cbv iota.
    rewrite lastIndexOf_from_notin by done. simpl. lia.
  - simpl app. cbn [lastIndexOf_from]. cbv zeta. rewrite IH by done.
    simpl length. lia.
Qed.

Lemma substring_take_drop s (i n : nat) :
  (i + n <= length s)%nat ->
  substring s (Z.of_nat i) (Z.of_nat (i + n)) = take n (drop i s)
  /\ substring s (Z.of_nat (i + n)) (Z.of_nat i) = take n (drop i s).
Proof.
  intros H. unfold substring, clamp.
  split; f_equal; [lia | f_equal; lia | lia | f_equal; lia].
Qed.

Lemma substring_mid a m b :
  substring (a ++ m ++ b) (Z.of_nat (length a)) (Z.of_nat (length a + length m)) = m.
Proof.
  destruct (substring_take_drop (a ++ m ++ b) (length a) (length m)) as [-> _].
  { rewrite !length_app. lia. }
  rewrite drop_app_length. apply take_app_length.
Qed.

Lemma substring_mid_swap a m b :
  substring (a ++ m ++ b) (Z.of_nat (length a + length m)) (Z.of_nat (length a)) = m.
Proof.
  destruct (substring_take_drop (a ++ m ++ b) (length a) (length m)) as [_ ->].
  { rewrite !length_app. lia. }
  rewrite drop_app_length. apply take_app_length.
Qed.

End Positions.

(** ** The brace slice *)

Section Braces.

Implicit Types (s a b m post : jsstring).

Local Abbreviation ob := 123%N.   (* the opening brace *)
Local Abbreviation cb := 125%N.   (* the closing brace *)

(** Without an opening brace or without a closing brace the text is kept
    whole. *)
Lemma sliceBraces_none s : ob ∉ s \/ cb ∉ s -> sliceBraces s = s.
Proof.
  intros H. unfold sliceBraces, indexOf, lastIndexOf.
  change (lit "{") with [ob]. change (lit "}") with [cb].
  destruct H as [H|H].
  - by rewrite (indexOf_from_notin _ _ _ H).
  - rewrite (lastIndexOf_from_notin _ _ _ _ H). simpl. by rewrite andb_false_r.
Qed.

Lemma of_nat_neq_m1 (n : nat) k : (0 <= k) -> (k + Z.of_nat n =? -1) = false.
Proof. intros. apply Z.eqb_neq. lia. Qed.

(** The first opening brace before the last closing brace: the slice runs
    from the one to the other, both included. *)
Lemma sliceBraces_span a m post :
  ob ∉ a -> cb ∉ post ->
  sliceBraces (a ++ ob :: m ++ cb :: post) = ob :: m ++ [cb].
Proof.
  intros Ha Hp. unfold sliceBraces, indexOf, lastIndexOf.
  change (lit "{") with [ob]. change (lit "}") with [cb].
  rewrite (indexOf_from_first _ _ _ _ Ha).
  replace (a ++ ob :: m ++ cb :: post) with ((a ++ ob :: m) ++ cb :: post)
    by by rewrite <- app_assoc.
  rewrite (lastIndexOf_from_last _ _ _ _ _ Hp).
  rewrite !of_nat_neq_m1 by lia. cbn [negb andb].
  replace ((a ++ ob :: m) ++ cb :: post) with (a ++ (ob :: m ++ [cb]) ++ post)
    by (rewrite <- !app_assoc; simpl; by rewrite <- app_assoc).
  replace (0 + Z.of_nat (length a)) with (Z.of_nat (length a)) by lia.
  replace (0 + Z.of_nat (length (a ++ ob :: m)) + 1)
    with (Z.of_nat (length a + length (ob :: m ++ [cb])))
    by (rewrite !length_app; simpl; rewrite length_app; simpl; lia).
  apply substring_mid.
Qed.

(** The last closing brace before the first opening brace: [substring]
    swaps its arguments and the slice is the text strictly between the
    two. *)
Lemma sliceBraces_crossed a m b :
  ob ∉ a -> ob ∉ m -> cb ∉ m -> cb ∉ b ->
  sliceBraces (a ++ cb :: m ++ ob :: b) = m.
Proof.
  intros Ha Hm Hm' Hb. unfold sliceBraces, indexOf, lastIndexOf.
  change (lit "{") with [ob]. change (lit "}") with [cb].
  assert (cb ∉ m ++ ob :: b) as Hlast.
  { apply not_elem_of_app. split; [done|]. apply not_elem_of_cons. done. }
  rewrite (lastIndexOf_from_last _ _ _ _ _ Hlast).
  replace (a ++ cb :: m ++ ob :: b) with ((a ++ cb :: m) ++ ob :: b)
    by by rewrite <- app_assoc.
  assert (ob ∉ a ++ cb :: m) as Hfirst.
  { apply not_elem_of_app. split; [done|]. apply not_elem_of_cons. done. }
  rewrite (indexOf_from_first _ _ _ _ Hfirst).
  rewrite !of_nat_neq_m1 by lia. cbn [negb andb].
  replace ((a ++ cb :: m) ++ ob :: b) with ((a ++ [cb]) ++ m ++ (ob :: b))
    by (rewrite <- !app_assoc; done).
  replace (0 + Z.of_nat (length (a ++ cb :: m)))
    with (Z.of_nat (length (a ++ [cb]) + length m))
    by (rewrite !length_app; simpl; lia).
  replace (0 + Z.of_nat (length a) + 1) with (Z.of_nat (length (a ++ [cb])))
    by (rewrite !length_app; simpl; lia).
  apply substring_mid_swap.
Qed.

(** A text that has both braces has one of the two shapes. *)
Lemma braces_shape s :
  ob ∈ s -> cb ∈ s ->
  (exists a m post, s = a ++ ob :: m ++ cb :: post /\ (ob ∉ a) /\ (cb ∉ post))
  \/ (exists a m b, s = a ++ cb :: m ++ ob :: b
                    /\ (ob ∉ a) /\ (ob ∉ m) /\ (cb ∉ m) /\ (cb ∉ b)).
Proof.
  intros Ho Hc.
  apply list_elem_of_split_l in Ho as (a & b & -> & Ha).
  destruct (decide (cb ∈ b)) as [Hb|Hb].
  - apply list_elem_of_split_r in Hb as (m & post & -> & Hp).
    left. by exists a, m, post.
  - apply elem_of_app in Hc as [Hc|Hc].
    + apply list_elem_of_split_r in Hc as (a1 & m & -> & Hm).
      apply not_elem_of_app in Ha as [Ha1 Ha2].
      apply not_elem_of_cons in Ha2 as [_ Ha2].
      right. exists a1, m, b. rewrite <- app_assoc. done.
    + apply elem_of_cons in Hc as [Hc|Hc]; [done|]. done.
Qed.

(** The slice of a slice is the slice. *)
Lemma sliceBraces_idem s : sliceBraces (sliceBraces s) = sliceBraces s.
Proof.
  destruct (decide (ob ∈ s)) as [Ho|Ho];
    [|by rewrite !(sliceBraces_none s) by by left].
  destruct (decide (cb ∈ s)) as [Hc|Hc];
    [|by rewrite !(sliceBraces_none s) by by right].
  destruct (braces_shape s Ho Hc)
    as [(a & m & post & -> & Ha & Hp)|(a & m & b & -> & Ha & Hm & Hm' & Hb)].
  - rewrite sliceBraces_span by done.
    apply (sliceBraces_span [] m []); apply not_elem_of_nil.
  - rewrite sliceBraces_crossed by done. apply sliceBraces_none. by left.
Qed.

(** Text without opening brace before, and text without closing brace
    after, a text that has both braces leave the slice unchanged. *)
Lemma sliceBraces_context x s y :
  ob ∉ x -> cb ∉ y -> ob ∈ s -> cb ∈ s ->
  sliceBraces (x ++ s ++ y) = sliceBraces s.
Proof.
  intros Hxo Hyc Ho Hc.
  destruct (braces_shape s Ho Hc)
    as [(a & m & post & -> & Ha & Hp)|(a & m & b & -> & Ha & Hm & Hm' & Hb)].
  - rewrite sliceBraces_span by done.
    replace (x ++ (a ++ ob :: m ++ cb :: post) ++ y)
      with ((x ++ a) ++ ob :: m ++ cb :: (post ++ y)).
    + apply sliceBraces_span; apply not_elem_of_app; done.
    + rewrite <- !app_assoc. simpl. by rewrite <- !app_assoc.
  - rewrite sliceBraces_crossed by done.
    replace (x ++ (a ++ cb :: m ++ ob :: b) ++ y)
      with ((x ++ a) ++ cb :: m ++ ob :: (b ++ y)).
    + apply sliceBraces_crossed; try done; apply not_elem_of_app; done.
    + rewrite <- !app_assoc. simpl. by rewrite <- !app_assoc.
Qed.

End Braces.

(** ** The fence removal *)

Section Fences.

Implicit Types (s a b c : jsstring).

Local Abbreviation bt := 96%N.   (* the backtick *)

Lemma fence_run : lit "```" = bt :: replicate 2 bt.
Proof. reflexivity. Qed.

Lemma fence_json : lit "```json" = lit "```" ++ lit "json".
Proof. reflexivity. Qed.

(** No triple backtick is left. *)
Lemma stripFences_free s : includes (stripFences s) (lit "```") = false.
Proof. unfold stripFences. rewrite fence_run. apply replace_g_run_free. Qed.

(** A text without triple backtick is left as it is. *)
Lemma stripFences_id s : includes s (lit "```") = false -> stripFences s = s.
Proof.
  intros H. unfold stripFences.
  rewrite (replace_g_id (lit "```json")).
  - by apply replace_g_id.
  - rewrite fence_json. by apply includes_false_longer.
Qed.

Lemma stripFences_idem s : stripFences (stripFences s) = stripFences s.
Proof. apply stripFences_id, stripFences_free. Qed.

Lemma stripFences_sublist s : sublist (stripFences s) s.
Proof.
  unfold stripFences. etrans; [apply replace_g_sublist|apply replace_g_sublist].
Qed.

(** A character other than the backtick and the letters of [json] is in
    the cleaned text exactly when it is in the text. *)
Lemma stripFences_elem_of x s :
  x ∉ lit "```json" -> (x ∈ stripFences s <-> x ∈ s).
Proof.
  intros Hx. split.
  - intros H. eapply elem_of_sublist; [exact H | apply stripFences_sublist].
  - intros H. unfold stripFences. apply replace_g_keeps.
    + intros Hin. apply Hx. rewrite fence_json. apply elem_of_app. by left.
    + by apply replace_g_keeps.
Qed.

(** A line feed separates the removal. *)
Lemma stripFences_newline a b :
  stripFences (a ++ 10%N :: b) = stripFences a ++ 10%N :: stripFences b.
Proof.
  unfold stripFences.
  rewrite (replace_g_sep 96%N (lit "``json")) by by_decide.
  apply (replace_g_sep 96%N (lit "``")). by_decide.
Qed.

End Fences.

(** ** The parser consumes its input *)

Section ParserProgress.

Import JSON.
Implicit Types (s rest : jsstring) (v : JSValue).

Lemma consumes_cons c s : consumes (c :: s) s.
Proof. split; [by apply suffix_cons_r | simpl; lia]. Qed.

Lemma consumes_suffix_l s s' rest :
  s' `suffix_of` s → consumes s' rest → consumes s rest.
Proof.
  intros Hs [H1 H2]. split; [by etrans|].
  apply suffix_length in Hs. lia.
Qed.

Lemma consumes_suffix_r s rest rest' :
  consumes s rest → rest' `suffix_of` rest → consumes s rest'.
Proof.
  intros [H1 H2] Hs. split; [by etrans|].
  apply suffix_length in Hs. lia.
Qed.

Lemma consumes_trans s t rest : consumes s t → consumes t rest → consumes s rest.
Proof. intros H [H1 _]. by eapply consumes_suffix_r. Qed.

Lemma skip_ws_suffix s : skip_ws s `suffix_of` s.
Proof.
  induction s as [|c s IH]; simpl; [done|].
  destruct (is_ws c); [by apply suffix_cons_r | done].
Qed.

Lemma skip_ws_cons s c r : skip_ws s = c :: r → consumes s r.
Proof.
  intros H. apply (consumes_suffix_l _ (c :: r)).
  - rewrite <- H. apply skip_ws_suffix.
  - apply consumes_cons.
Qed.

Lemma strip_prefix_suffix pat s rest :
  strip_prefix pat s = Some rest → rest `suffix_of` s.
Proof. intros H. apply strip_prefix_Some in H as ->. by apply suffix_app_r. Qed.

Lemma cons_char_Some c o str rest :
  cons_char c o = Some (str, rest) → ∃ str', o = Some (str', rest) ∧ str = c :: str'.
Proof. destruct o as [[str' rest']|]; simpl; [|done]. intros [= <- <-]. eauto. Qed.

Lemma parse_string_body_consumes s str rest :
  parse_string_body s = Some (str, rest) → consumes s rest.
Proof.
  remember (length s) as n eqn:Hn. revert s str rest Hn.
  induction n as [n IH] using lt_wf_ind. intros s str rest -> H.
  assert (∀ t str', (length t < length s)%nat → t `suffix_of` s →
            parse_string_body t = Some (str', rest) → consumes s rest) as Hrec.
  { intros t str' Hlen Hsuf Ht.
    eapply consumes_suffix_l; [exact Hsuf|]. by eapply IH. }
  destruct s as [|c r]; [done|]. cbn [parse_string_body] in H.
  destruct (eqb c quote).
  { injection H as <- <-. apply consumes_cons. }
  destruct (eqb c backslash).
  - destruct r as [|e r1]; [done|].
    destruct (is_char "u" e).
    + destruct r1 as [|h1 [|h2 [|h3 [|h4 r2]]]]; try done.
      destruct (hex4 h1 h2 h3 h4); [|done].
      apply cons_char_Some in H as (str' & H & _).
      apply (Hrec _ _) in H; [done | simpl; lia |].
      do 6 apply suffix_cons_r. done.
    + destruct (simple_escape e); [|done].
      apply cons_char_Some in H as (str' & H & _).
      apply (Hrec _ _) in H; [done | simpl; lia |].
      do 2 apply suffix_cons_r. done.
  - destruct (c <? 32)%N; [done|].
    apply cons_char_Some in H as (str' & H & _).
    apply (Hrec _ _) in H; [done | simpl; lia |].
    by apply suffix_cons_r.
Qed.

Lemma span_digits_suffix s acc n : (span_digits s acc n).2 `suffix_of` s.
Proof.
  revert acc n. induction s as [|c s IH]; intros acc n; simpl; [done|].
  destruct (is_digit c); [apply suffix_cons_r, IH | done].
Qed.

Lemma span_digits_suffix' s acc n m k rest :
  span_digits s acc n = (m, k, rest) → rest `suffix_of` s.
Proof. intros H. pose proof (span_digits_suffix s acc n) as Hs. by rewrite H in Hs. Qed.

End ParserProgress.

Section ParserShape.

Import JSON.
Implicit Types (s rest : jsstring) (v : JSValue).

Lemma suffix_step (a b c : jsstring) : a `suffix_of` b → b `suffix_of` c → a `suffix_of` c.
Proof. intros. by etrans. Qed.

Lemma span_digits_digit c r acc n m k rest :
  negb (is_digit c) = false →
  span_digits (c :: r) acc n = (m, k, rest) → rest `suffix_of` r.
Proof.
  intros D%negb_false_iff. simpl. rewrite D. apply span_digits_suffix'.
Qed.

Lemma skip_ws_suffix' s t : skip_ws s = t → t `suffix_of` s.
Proof. intros <-. apply skip_ws_suffix. Qed.

Lemma consumes_suffix s rest : consumes s rest → rest `suffix_of` s.
Proof. by intros [H _]. Qed.

Lemma parse_string_body_suffix s str rest :
  parse_string_body s = Some (str, rest) → rest `suffix_of` s.
Proof. intros H. by apply parse_string_body_consumes in H as [H _]. Qed.

(** Collect what the hypotheses say about suffixes. *)
Ltac parser_facts :=
  repeat match goal with
    | H : span_digits (?c :: _) _ _ = _, D : negb (is_digit ?c) = false |- _ =>
        apply (span_digits_digit _ _ _ _ _ _ _ D) in H
    | H : span_digits _ _ _ = _ |- _ => apply span_digits_suffix' in H
    | H : skip_ws _ = _ |- _ => apply skip_ws_suffix' in H
    | H : parse_string_body _ = Some _ |- _ => apply parse_string_body_suffix in H
    | H : strip_prefix _ _ = Some _ |- _ => apply strip_prefix_suffix in H
    | H : consumes ?a ?b |- _ =>
        lazymatch goal with
        | _ : b `suffix_of` a |- _ => fail
        | _ => pose proof (consumes_suffix _ _ H)
        end
    | H : _ :: ?a `suffix_of` ?b |- _ =>
        lazymatch goal with
        | _ : a `suffix_of` b |- _ => fail
        | _ => pose proof (suffix_cons_l _ _ _ H)
        end
    end.

Ltac suffix_chain :=
  first
    [ done
    | apply suffix_cons_r; suffix_chain
    | match goal with
      | H : ?a `suffix_of` ?b |- ?a `suffix_of` _ =>
          apply (suffix_step a b); [exact H|]; suffix_chain
      | |- skip_ws ?a `suffix_of` _ =>
          apply (suffix_step _ a); [apply skip_ws_suffix|]; suffix_chain
      end ].

(** [consumes (c :: s) rest] from a chain of suffixes from [rest] to [s]. *)
Ltac consumes_chain :=
  match goal with
  | |- consumes (?c :: ?s) ?rest =>
      apply (consumes_suffix_r _ s); [apply consumes_cons|]; suffix_chain
  | H : consumes ?s ?t |- consumes ?s ?rest =>
      apply (consumes_suffix_r _ t _ H); suffix_chain
  end.

Lemma parse_number_ok s v rest :
  parse_number s = POk v rest → consumes s rest ∧ ∃ d, v = JNumber d.
Proof.
  unfold parse_number. intros H.
  repeat case_match; simplify_eq; parser_facts.
  all: split; [consumes_chain | eauto].
Qed.

Lemma parse_keyword_ok c kw v' s v rest :
  parse_keyword (c :: kw) v' s = POk v rest → consumes s rest ∧ v = v'.
Proof.
  unfold parse_keyword. destruct (strip_prefix _ _) as [r|] eqn:E; [|done].
  intros [= <- <-]. split; [|done].
  apply strip_prefix_Some in E as ->. simpl.
  apply (consumes_suffix_r _ (kw ++ r)); [apply consumes_cons | by apply suffix_app_r].
Qed.

Lemma parse_keyword_consumes kw v' s v rest :
  kw ≠ [] → parse_keyword kw v' s = POk v rest → consumes s rest.
Proof. destruct kw; [done|]. intros _ H. by apply parse_keyword_ok in H as [H _]. Qed.

Ltac parser_steps :=
  repeat match goal with
    | IH : ∀ s v rest, parse_value ?f s = POk v rest → consumes s rest,
      H : parse_value ?f _ = POk _ _ |- _ => apply IH in H
    | IH : ∀ s acc v rest, parse_elements ?f s acc = POk v rest → consumes s rest,
      H : parse_elements ?f _ _ = POk _ _ |- _ => apply IH in H
    | IH : ∀ s acc v rest, parse_members ?f s acc = POk v rest → consumes s rest,
      H : parse_members ?f _ _ = POk _ _ |- _ => apply IH in H
    | H : parse_number _ = POk _ _ |- _ => apply parse_number_ok in H as [H _]
    | H : parse_keyword _ _ _ = POk _ _ |- _ =>
        apply parse_keyword_consumes in H; [|done]
    end.

Lemma parse_consumes fuel :
  (∀ s v rest, parse_value fuel s = POk v rest → consumes s rest)
  ∧ (∀ s acc v rest, parse_elements fuel s acc = POk v rest → consumes s rest)
  ∧ (∀ s acc v rest, parse_members fuel s acc = POk v rest → consumes s rest).
Proof.
  induction fuel as [|f (IHv & IHe & IHm)]; [done|].
  split_and!.
  - intros s v rest H. cbn [parse_value] in H.
    repeat case_match; simplify_eq; parser_steps; try done; parser_facts;
      consumes_chain.
  - intros s acc v rest H. cbn [parse_elements] in H.
    repeat case_match; simplify_eq; parser_steps; parser_facts; consumes_chain.
  - intros s acc v rest H. cbn [parse_members] in H.
    repeat case_match; simplify_eq; parser_steps; parser_facts; consumes_chain.
Qed.

Lemma parse_number_fuel s : parse_number s ≠ POutOfFuel.
Proof. unfold parse_number. repeat case_match; done. Qed.

Lemma parse_keyword_fuel kw v s : parse_keyword kw v s ≠ POutOfFuel.
Proof. unfold parse_keyword. by case_match. Qed.

Ltac skip_ws_length l :=
  lazymatch goal with
  | _ : (length (skip_ws l) <= length l)%nat |- _ => fail
  | _ => pose proof (suffix_length _ _ (skip_ws_suffix l))
  end.

(** The lengths that the suffix facts relate. *)
Ltac length_facts :=
  repeat match goal with
    | H : consumes _ _ |- _ => destruct H as [_ H]
    | H : _ `suffix_of` _ |- _ => apply suffix_length in H
    end;
  repeat match goal with
    | |- context [skip_ws ?l] => skip_ws_length l
    | _ : context [skip_ws ?l] |- _ => skip_ws_length l
    end;
  cbn [length] in *.

(** Fuel is never the reason of a failure. *)
Lemma parse_fuel fuel :
  (∀ s, (2 * length s + 1 ≤ fuel)%nat → parse_value fuel s ≠ POutOfFuel)
  ∧ (∀ s acc, (2 * length s + 2 ≤ fuel)%nat → parse_elements fuel s acc ≠ POutOfFuel)
  ∧ (∀ s acc, (2 * length s + 2 ≤ fuel)%nat → parse_members fuel s acc ≠ POutOfFuel).
Proof.
  induction fuel as [|f (IHv & IHe & IHm)]; [split_and!; intros; lia|].
  pose proof (parse_consumes f) as (Cv & Ce & Cm).
  split_and!.
  - intros s Hf. cbn [parse_value].
    repeat case_match; simplify_eq; try done;
      auto using parse_number_fuel, parse_keyword_fuel.
    all: first [apply IHm | apply IHe]; parser_facts; length_facts; lia.
  - intros s acc Hf. cbn [parse_elements].
    repeat case_match; simplify_eq; try done.
    + apply IHe. parser_steps. parser_facts. length_facts. lia.
    + intros _. eapply IHv; [|eassumption]. lia.
  - intros s acc Hf. cbn [parse_members].
    repeat case_match; simplify_eq; try done.
    + apply IHm. parser_steps. parser_facts. length_facts. lia.
    + intros _. eapply IHv; [|eassumption]. parser_facts. length_facts. lia.
Qed.

Lemma parse_value_fuel_enough s : parse_value (fuel_for s) (skip_ws s) ≠ POutOfFuel.
Proof.
  apply parse_fuel. pose proof (suffix_length _ _ (skip_ws_suffix s)).
  unfold fuel_for. lia.
Qed.

Lemma is_char_true a c : is_char a c = true → c = cu a.
Proof. apply eqb_true. Qed.

Ltac char_eqs :=
  repeat match goal with
    | H : is_char _ ?c = true |- _ => apply is_char_true in H; subst c
    end.

(** An object is read from an opening brace to a closing brace, and an
    array is not an object. *)
Lemma parse_kinds fuel :
  (∀ s ps rest, parse_value fuel s = POk (JObject ps) rest →
     (∃ r, s = 123%N :: r) ∧ 125%N ∈ s)
  ∧ (∀ s acc v rest, parse_elements fuel s acc = POk v rest → ∃ es, v = JArray es ∅)
  ∧ (∀ s acc v rest, parse_members fuel s acc = POk v rest → 125%N ∈ s).
Proof.
  induction fuel as [|f (IHv & IHe & IHm)]; [done|].
  pose proof (parse_consumes f) as (Cv & Ce & Cm).
  split_and!.
  - intros s ps rest H. cbn [parse_value] in H.
    repeat case_match; simplify_eq.
    + char_eqs. split; [by eexists|].
      right. eapply elem_of_suffix; [|by apply skip_ws_suffix']. left.
    + char_eqs. split; [by eexists|].
      apply IHm in H. right. eapply elem_of_suffix; [exact H|by apply skip_ws_suffix'].
    + by apply IHe in H as [es ?].
    + by apply parse_keyword_ok in H as [_ ?].
    + by apply parse_keyword_ok in H as [_ ?].
    + by apply parse_keyword_ok in H as [_ ?].
    + by apply parse_number_ok in H as [_ [d ?]].
  - intros s acc v rest H. cbn [parse_elements] in H.
    repeat case_match; simplify_eq; eauto.
  - intros s acc v rest H. cbn [parse_members] in H.
    repeat case_match; simplify_eq.
    + apply IHm in H. parser_steps. parser_facts.
      eapply elem_of_suffix; [exact H|]. suffix_chain.
    + char_eqs. parser_steps. parser_facts.
      match goal with
      | H : cu "}" :: ?r `suffix_of` _ |- _ =>
          eapply (elem_of_suffix (cu "}" :: r)); [left|]
      end.
      suffix_chain.
Qed.

(** A text that [JSON.parse] reads as an object has both braces. *)
Lemma parse_object_braces text ps :
  JSON.parse text = Returned (JObject ps) → 123%N ∈ text ∧ 125%N ∈ text.
Proof.
  unfold JSON.parse. intros H.
  destruct (parse_value _ _) as [v rest| |] eqn:E; try done.
  destruct (skip_ws rest); [|done]. injection H as ->.
  apply parse_kinds in E as [[r Hr] Hc].
  pose proof (skip_ws_suffix text) as Hs.
  split; (eapply elem_of_suffix; [|exact Hs]); [rewrite Hr; left | done].
Qed.

(** The empty text is not a JSON text. *)
Lemma parse_empty : JSON.parse [] = Thrown SyntaxError.
Proof. reflexivity. Qed.

End ParserShape.

(** ** The candidate text of [analyzeUrl] *)

Section Candidate.

Implicit Types (s : jsstring) (t : option jsstring).

Lemma or_default_nonempty s d : s ≠ [] → or_default (Some s) d = s.
Proof. by destruct s. Qed.

Lemma sliceBraces_free s :
  includes s (lit "```") = false → includes (sliceBraces s) (lit "```") = false.
Proof.
  intros H. unfold sliceBraces. case_match; [|done].
  by apply includes_false_substring.
Qed.

(** The candidate has no triple backtick. *)
Lemma jsonCandidate_free t : includes (jsonCandidate t) (lit "```") = false.
Proof. apply sliceBraces_free, stripFences_free. Qed.

(** The candidate of a candidate is the candidate, unless it is empty: the
    empty text is replaced by the text of the empty object. *)
Lemma jsonCandidate_idem t :
  jsonCandidate t ≠ [] → jsonCandidate (Some (jsonCandidate t)) = jsonCandidate t.
Proof.
  intros Hne. unfold jsonCandidate at 1.
  rewrite or_default_nonempty by done.
  rewrite stripFences_id by apply jsonCandidate_free.
  apply sliceBraces_idem.
Qed.

Example jsonCandidate_empty :
  jsonCandidate (Some (lit "}{")) = []
  ∧ jsonCandidate (Some (jsonCandidate (Some (lit "}{")))) = lit "{}".
Proof. split; reflexivity. Qed.

Lemma stripFences_inProse pre payload post :
  stripFences (inProse pre payload post) =
  (stripFences (pre ++ lit "```json") ++ [10%N])
    ++ stripFences payload ++ 10%N :: stripFences (lit "```" ++ post).
Proof.
  unfold inProse.
  replace (pre ++ lit "```json" ++ 10%N :: payload ++ 10%N :: lit "```" ++ post)
    with ((pre ++ lit "```json") ++ 10%N :: payload ++ 10%N :: lit "```" ++ post)
    by by rewrite <- app_assoc.
  rewrite !stripFences_newline. by rewrite <- app_assoc.
Qed.

Lemma stripFences_not_elem_of x s : x ∉ s → x ∉ stripFences s.
Proof.
  intros H Hin. apply H.
  eapply elem_of_sublist; [exact Hin | apply stripFences_sublist].
Qed.

(** Prose without opening brace before, and prose without closing brace
    after, the fenced payload do not change the candidate of a payload that
    has both braces. *)
Lemma jsonCandidate_inProse pre payload post :
  123%N ∉ pre → 125%N ∉ post →
  123%N ∈ payload → 125%N ∈ payload →
  jsonCandidate (Some (inProse pre payload post)) = jsonCandidate (Some payload).
Proof.
  intros Ho1 Hc2 Ho Hc. unfold jsonCandidate.
  rewrite !or_default_nonempty.
  - rewrite stripFences_inProse.
    apply sliceBraces_context.
    + apply not_elem_of_app. split; [apply stripFences_not_elem_of|by_decide].
      apply not_elem_of_app. split; [done|]. by_decide.
    + apply not_elem_of_cons. split; [done|]. apply stripFences_not_elem_of.
      apply not_elem_of_app. split; [|done]. by_decide.
    + apply stripFences_elem_of; [|done]. by_decide.
    + apply stripFences_elem_of; [|done]. by_decide.
  - intros ->. by apply not_elem_of_nil in Ho.
  - unfold inProse. by destruct pre.
Qed.

End Candidate.

(** ** What the service returns *)

Section Service.

Implicit Types (response : GenerateContentResponse) (reply : ApiReply)
  (props : gmap jsstring JSValue) (v : JSValue).

Lemma analyzeUrl_response response :
  analyzeUrl (Returned response) = try_catch (extractUrl response) (Returned fallbackResult).
Proof. reflexivity. Qed.

(** A candidate that is read as an object is returned, with the [sources]
    property set when the response has grounding chunks. *)
Lemma extractUrl_object response props :
  JSON.parse (jsonCandidate (text response)) = Returned (JObject props) →
  extractUrl response =
  Returned (JObject match responseChunks response with
                    | Some chunks => <[lit "sources" := JArray (sourcesOf chunks) ∅]> props
                    | None => props
                    end).
Proof. unfold extractUrl. intros ->. cbn. by destruct (responseChunks response). Qed.

Lemma extractUrl_object_lookup response props k :
  JSON.parse (jsonCandidate (text response)) = Returned (JObject props) →
  k ≠ lit "sources" →
  ∃ props', extractUrl response = Returned (JObject props')
            ∧ analyzeUrl (Returned response) = Returned (JObject props')
            ∧ props' !! k = props !! k.
Proof.
  intros H Hk. eexists. rewrite analyzeUrl_response, (extractUrl_object _ _ H).
  split_and!; [done..|].
  destruct (responseChunks response); [|done]. by rewrite lookup_insert_ne.
Qed.

Lemma parseReply_analyze response v :
  parseReply response = Returned v →
  analyzeText (Returned response) = Returned v
  ∧ analyzeImage (Returned response) = Returned v
  ∧ analyzeVideo (Returned response) = Returned v.
Proof. unfold analyzeText, analyzeImage, analyzeVideo. cbn. by intros ->. Qed.

Lemma required_not_sources f : f ∈ requiredFields → f ≠ lit "sources".
Proof. intros H ->. revert H. by_decide. Qed.

End Service.

(** ** What is between the fences *)

Section FencedContent.

Implicit Types (s a b c : jsstring).

Local Abbreviation bt := 96%N.

Lemma starts_with_notin p pat s : p ∉ s → starts_with (p :: pat) s = false.
Proof.
  destruct s as [|x s]; [done|]. intros [Hx _]%not_elem_of_cons.
  rewrite starts_with_cons. assert (eqb p x = false) as ->; [by apply eqb_false | done].
Qed.

(** The scan copies a prefix that has no first character of the pattern. *)
Lemma replace_g_prefix p pat rep a s :
  p ∉ a → replace_g (a ++ s) (p :: pat) rep = a ++ replace_g s (p :: pat) rep.
Proof.
  induction a as [|x a IH]; [done|]. intros [Hx Ha]%not_elem_of_cons.
  simpl app. rewrite replace_g_skip; [by rewrite IH|].
  rewrite starts_with_cons. assert (eqb p x = false) as ->; [by apply eqb_false | done].
Qed.

Lemma replace_g_plain p pat rep a : p ∉ a → replace_g a (p :: pat) rep = a.
Proof.
  intros H. rewrite <- (app_nil_r a) at 1. rewrite replace_g_prefix by done.
  by rewrite replace_g_nil, app_nil_r.
Qed.

(** A fence that is not followed by [json] nor by a backtick is not a
    [json] fence. *)
Lemma replace_g_json_bare s :
  starts_with (lit "json") s = false → starts_with [bt] s = false →
  replace_g (lit "```" ++ s) (lit "```json") [] =
  lit "```" ++ replace_g s (lit "```json") [].
Proof.
  intros Hj Hb.
  change (lit "```json") with (bt :: bt :: bt :: lit "json").
  change (lit "```" ++ s) with (bt :: bt :: bt :: s).
  assert (∀ q, starts_with (bt :: q) s = false) as Hq.
  { intros q. destruct s as [|x s]; [done|]. rewrite starts_with_cons in *.
    destruct (eqb bt x); done. }
  rewrite !replace_g_skip; [done|..]; rewrite ?starts_with_cons; simpl; auto.
Qed.

Lemma starts_with_json_app b s :
  bt ∉ b → starts_with (lit "json") b = false → starts_with [bt] s = true →
  starts_with (lit "json") (b ++ s) = false.
Proof.
  intros Hb Hj Hs. apply starts_with_single in Hs as [r ->].
  destruct (starts_with (lit "json") (b ++ bt :: r)) eqn:E; [|done].
  apply starts_with_app_sep in E; [congruence|]. by_decide.
Qed.

(** The content between a [json] fence and a closing fence. *)
Lemma stripFences_json_block a b c :
  bt ∉ a → bt ∉ b → bt ∉ c → starts_with (lit "json") c = false →
  stripFences (a ++ lit "```json" ++ b ++ lit "```" ++ c) = a ++ b ++ c.
Proof.
  intros Ha Hb Hc Hj. unfold stripFences.
  change (lit "```json") with (bt :: lit "``json").
  rewrite (replace_g_prefix _ _ _ a) by done.
  rewrite replace_g_match. cbn [app].
  rewrite (replace_g_prefix _ _ _ b) by done.
  change (bt :: lit "``json") with (lit "```json").
  rewrite replace_g_json_bare; [|done|by apply starts_with_notin].
  change (lit "```json") with (bt :: lit "``json").
  rewrite (replace_g_plain _ _ _ c) by done.
  change (lit "```") with (bt :: lit "``").
  rewrite (replace_g_prefix _ _ _ a), (replace_g_prefix _ _ _ b) by done.
  rewrite replace_g_match, replace_g_plain by done. done.
Qed.

(** The content between two bare fences; a language tag other than [json]
    is part of it. *)
Lemma stripFences_bare_block a b c :
  bt ∉ a → bt ∉ b → bt ∉ c →
  starts_with (lit "json") b = false → starts_with (lit "json") c = false →
  stripFences (a ++ lit "```" ++ b ++ lit "```" ++ c) = a ++ b ++ c.
Proof.
  intros Ha Hb Hc Hjb Hjc. unfold stripFences.
  assert (replace_g (a ++ lit "```" ++ b ++ lit "```" ++ c) (lit "```json") []
          = a ++ lit "```" ++ b ++ lit "```" ++ c) as ->.
  { change (lit "```json") with (bt :: lit "``json").
    rewrite (replace_g_prefix _ _ _ a) by done. f_equal.
    change (bt :: lit "``json") with (lit "```json").
    destruct b as [|x b].
    - change (lit "```" ++ [] ++ lit "```" ++ c) with (bt :: bt :: bt :: lit "```" ++ c).
      rewrite !replace_g_skip by done.
      rewrite replace_g_json_bare; [|done|by apply starts_with_notin].
      change (lit "```json") with (bt :: lit "``json").
      by rewrite replace_g_plain.
    - rewrite replace_g_json_bare.
      + change (lit "```json") with (bt :: lit "``json").
        rewrite (replace_g_prefix _ _ _ (x :: b)) by done.
        change (bt :: lit "``json") with (lit "```json").
        rewrite replace_g_json_bare; [|done|by apply starts_with_notin].
        change (lit "```json") with (bt :: lit "``json").
        by rewrite replace_g_plain.
      + by apply starts_with_json_app.
      + change ((x :: b) ++ lit "```" ++ c) with (x :: (b ++ lit "```" ++ c)).
        rewrite starts_with_cons. apply not_elem_of_cons in Hb as [Hx _].
        assert (eqb bt x = false) as -> by by apply eqb_false. done. }
  change (lit "```") with (bt :: lit "``").
  rewrite (replace_g_prefix _ _ _ a) by done. rewrite replace_g_match, app_nil_l.
  rewrite (replace_g_prefix _ _ _ b) by done.
  rewrite replace_g_match, replace_g_plain by done. done.
Qed.

(** Removal touches the characters of the pattern only: the other
    characters are kept, in their order. *)
Lemma replace_g_filter (Q : N → Prop) `{∀ x, Decision (Q x)} p pat s :
  Forall (λ x, ¬ Q x) (p :: pat) →
  filter Q (replace_g s (p :: pat) []) = filter Q s.
Proof.
  intros HQ. induction s as [|r IH|x s E IH] using (scan_ind p pat).
  - done.
  - rewrite replace_g_match, app_nil_l, IH, filter_app.
    assert (filter Q (p :: pat) = []) as ->; [|done].
    clear -HQ. induction HQ as [|y l Hy _ IHl]; [done|].
    by rewrite filter_cons_False.
  - rewrite replace_g_skip by done. by rewrite !filter_cons, IH.
Qed.

Lemma stripFences_filter s :
  filter (λ x, x ∉ lit "```json") (stripFences s) = filter (λ x, x ∉ lit "```json") s.
Proof.
  unfold stripFences.
  change (lit "```") with (bt :: lit "``").
  change (replace_g s (lit "```json") []) with (replace_g s (bt :: lit "``json") []).
  rewrite !replace_g_filter; [done|..];
    by_decide.
Qed.

End FencedContent.

(** ** Fences among other backticks *)

Section FenceInsertion.

Implicit Types (x y s : jsstring).

Local Abbreviation bt := 96%N.

Lemma starts_with_fence_cons c s :
  starts_with (lit "```") (c :: s) = eqb bt c && starts_with (lit "``") s.
Proof. apply starts_with_cons. Qed.

(** Removing the triple backticks does not see a fence that is put in the
    text: a run of backticks loses its triples wherever they are. *)
Lemma replace_fence_insert x y :
  replace_g (x ++ lit "```" ++ y) (lit "```") []
  = replace_g (x ++ y) (lit "```") [].
Proof.
  change (lit "```") with [bt; bt; bt].
  induction x as [|r IH|c s E IH] using (scan_ind bt [bt; bt]).
  - by rewrite app_nil_l, replace_g_match.
  - rewrite <- !app_assoc, !replace_g_match. exact IH.
  - assert (∀ z, starts_with [bt; bt; bt] (c :: s ++ z) = false →
                 replace_g ((c :: s) ++ z) [bt; bt; bt] []
                 = c :: replace_g (s ++ z) [bt; bt; bt] []) as Hskip.
    { intros z Hz. cbn [app]. by rewrite replace_g_skip. }
    destruct (eqb bt c) eqn:Ec.
    + apply eqb_true in Ec as <-.
      destruct s as [|d s].
      { change ([bt] ++ [bt; bt; bt] ++ y) with ([bt; bt; bt] ++ bt :: y).
        by rewrite replace_g_match. }
      destruct (eqb bt d) eqn:Ed.
      * apply eqb_true in Ed as <-.
        destruct s as [|e s].
        { change ([bt; bt] ++ [bt; bt; bt] ++ y)
            with ([bt; bt; bt] ++ bt :: bt :: y).
          by rewrite replace_g_match. }
        assert (eqb bt e = false) as Ee.
        { destruct (eqb bt e) eqn:Ee; [|done].
          apply eqb_true in Ee as <-. by vm_compute in E. }
        rewrite !Hskip; [by rewrite IH|..]; cbn [app];
          rewrite !starts_with_cons; by rewrite Ee, !andb_false_r.
      * rewrite !Hskip; [by rewrite IH|..]; cbn [app];
          rewrite !starts_with_cons; by rewrite Ed, !andb_false_r.
    + rewrite !Hskip; [by rewrite IH|..]; rewrite starts_with_cons; by rewrite Ec.
Qed.

(** No occurrence of the [json] marker starts before a marker that is put
    in the text and ends in it. *)
Lemma starts_with_json_straddle c x y :
  starts_with (lit "```json") ((c :: x) ++ lit "```json" ++ y) = true →
  starts_with (lit "```json") (c :: x) = true.
Proof.
  change (lit "```json") with [bt; bt; bt; 106; 115; 111; 110]%N.
  destruct x as [|c2 [|c3 [|c4 [|c5 [|c6 [|c7 x]]]]]]; cbn [app];
    rewrite ?starts_with_cons; cbn [starts_with strip_prefix];
    intros H; repeat (apply andb_true_iff in H as [? H]);
    repeat match goal with
      | H : eqb _ _ = true |- _ => apply eqb_true in H
      end;
    try discriminate; subst; try done.
  all: by vm_compute.
Qed.

(** The [json] marker that is put in a text without one is the one match. *)
Lemma replace_json_insert x y :
  includes x (lit "```json") = false → includes y (lit "```json") = false →
  replace_g (x ++ lit "```json" ++ y) (lit "```json") [] = x ++ y.
Proof.
  intros Hx Hy. induction x as [|c x IH].
  - change (lit "```json") with (bt :: lit "``json").
    rewrite app_nil_l, replace_g_match. by apply replace_g_id.
  - apply includes_false_cons in Hx as [Hs Hx].
    change ((c :: x) ++ lit "```json" ++ y) with (c :: (x ++ lit "```json" ++ y)).
    rewrite replace_g_skip; [by rewrite IH|].
    destruct (starts_with (lit "```json") (c :: x ++ lit "```json" ++ y)) eqn:E; [|done].
    apply (starts_with_json_straddle c x y) in E. congruence.
Qed.

(** The text between a [json] fence and a closing fence, and the text
    around them, are what is left, when the rest of the text has no triple
    backtick and the closing fence is not a [json] marker. *)
Lemma stripFences_json_fenced a b c :
  includes (a ++ b ++ c) (lit "```") = false →
  includes (b ++ lit "```" ++ c) (lit "```json") = false →
  stripFences (a ++ lit "```json" ++ b ++ lit "```" ++ c) = a ++ b ++ c.
Proof.
  intros Hf Hj. unfold stripFences.
  rewrite replace_json_insert; [|..|done].
  - replace (a ++ b ++ lit "```" ++ c) with ((a ++ b) ++ lit "```" ++ c)
      by by rewrite <- app_assoc.
    rewrite replace_fence_insert, <- app_assoc. by apply replace_g_id.
  - rewrite fence_json. apply includes_false_longer.
    by apply includes_false_app_l in Hf.
Qed.

(** The same between two bare fences, when the text has no [json]
    marker. *)
Lemma stripFences_bare_fenced a b c :
  includes (a ++ b ++ c) (lit "```") = false →
  includes (a ++ lit "```" ++ b ++ lit "```" ++ c) (lit "```json") = false →
  stripFences (a ++ lit "```" ++ b ++ lit "```" ++ c) = a ++ b ++ c.
Proof.
  intros Hf Hj. unfold stripFences.
  rewrite (replace_g_id (lit "```json")) by done.
  rewrite replace_fence_insert.
  replace (a ++ b ++ lit "```" ++ c) with ((a ++ b) ++ lit "```" ++ c)
    by by rewrite <- app_assoc.
  rewrite replace_fence_insert, <- app_assoc. by apply replace_g_id.
Qed.

End FenceInsertion.

(** * The claims *)

(** C1, as stated, fails: on a text that is not JSON the body of
    [analyzeUrl] throws, and [analyzeUrl] returns the fallback object, not
    an error; the error of [analyzeText] is the same for two different raw
    texts, so it does not carry the raw text. *)
Lemma failure_counterexample :
  extractUrl {| text := Some (lit "not json"); candidates := None |} = Thrown SyntaxError
  ∧ analyzeUrl (textReply (Some (lit "not json"))) = Returned fallbackResult
  ∧ analyzeText (textReply (Some (lit "not json"))) =
    analyzeText (textReply (Some (lit "neither"))).
Proof. split_and!; reflexivity. Qed.

(** C1 (amended): for every input on which extraction fails (the remote
    call is rejected, [JSON.parse] throws or the assignment of [sources]
    throws), [analyzeUrl] surfaces no error and returns the fixed fallback
    object; [analyzeText], [analyzeImage] and [analyzeVideo] throw a generic
    [Error] whose fixed message does not depend on the raw text. *)
Theorem failure_handling (reply : ApiReply) (e : exn) :
  ((response ← reply; extractUrl response) = Thrown e →
     analyzeUrl reply = Returned fallbackResult)
  ∧ ((response ← reply; parseReply response) = Thrown e →
       analyzeText reply = Thrown (Error (lit "Error al analizar texto."))
       ∧ analyzeImage reply = Thrown (Error (lit "Error al analizar imagen."))
       ∧ analyzeVideo reply = Thrown (Error (lit "Error al analizar video."))).
Proof.
  unfold analyzeUrl, analyzeText, analyzeImage, analyzeVideo.
  split; intros ->; done.
Qed.

Lemma failure_handling_witness :
  analyzeUrl (Thrown ApiError) = Returned fallbackResult
  ∧ analyzeText (textReply (Some (lit "not json")))
    = Thrown (Error (lit "Error al analizar texto.")).
Proof.
  split.
  - apply (proj1 (failure_handling (Thrown ApiError) ApiError)). reflexivity.
  - apply (proj2 (failure_handling (textReply (Some (lit "not json"))) SyntaxError)).
    reflexivity.
Defined.

(** C2, as stated, fails: the payload with the verdict [Robot] is returned
    as it is by [analyzeText], and by [analyzeUrl] from a fenced block. *)
Lemma robot_counterexample :
  let robot := <[lit "verdict" := JString (lit "Robot")]> exampleProps in
  analyzeText (textReply (Some robotPayload)) = Returned (JObject robot)
  ∧ analyzeUrl (textReply (Some (fencedJson robotPayload))) = Returned (JObject robot)
  ∧ robot !! lit "verdict" = Some (JString (lit "Robot"))
  ∧ lit "Robot" ∉ verdictLiterals.
Proof.
  split_and!; [by vm_compute..|]. by_decide.
Qed.

(** C2 (amended): for every syntactically valid payload, whatever its
    [verdict] field holds (one of the three literals or not), extraction
    succeeds and the returned object has that same [verdict]; nothing
    checks the value. *)
Theorem verdict_passes_through (response : GenerateContentResponse)
    (props : gmap jsstring JSValue) (x : JSValue) :
  props !! lit "verdict" = Some x →
  (JSON.parse (jsonCandidate (text response)) = Returned (JObject props) →
     ∃ props', analyzeUrl (Returned response) = Returned (JObject props')
               ∧ props' !! lit "verdict" = Some x)
  ∧ (parseReply response = Returned (JObject props) →
       analyzeText (Returned response) = Returned (JObject props)
       ∧ analyzeImage (Returned response) = Returned (JObject props)
       ∧ analyzeVideo (Returned response) = Returned (JObject props)).
Proof.
  intros Hx. split.
  - intros H.
    destruct (extractUrl_object_lookup response props (lit "verdict") H)
      as (props' & _ & Hu & Hl); [done|].
    exists props'. by rewrite Hl.
  - apply parseReply_analyze.
Qed.

Lemma verdict_passes_through_witness :
  ∃ props', analyzeUrl (textReply (Some robotPayload)) = Returned (JObject props')
            ∧ props' !! lit "verdict" = Some (JString (lit "Robot")).
Proof.
  apply (proj1 (verdict_passes_through
                  {| text := Some robotPayload; candidates := None |}
                  (<[lit "verdict" := JString (lit "Robot")]> exampleProps)
                  (JString (lit "Robot")) ltac:(by vm_compute))).
  by vm_compute.
Defined.

(** C3, as stated, fails: the payload without [confidenceScore] is
    returned with the field absent. *)
Lemma scoreless_counterexample :
  let scoreless := delete (lit "confidenceScore") exampleProps in
  analyzeText (textReply (Some scorelessPayload)) = Returned (JObject scoreless)
  ∧ analyzeUrl (textReply (Some (fencedJson scorelessPayload))) = Returned (JObject scoreless)
  ∧ scoreless !! lit "confidenceScore" = None.
Proof. split_and!; by vm_compute. Qed.

(** C3 (amended): for every syntactically valid payload that lacks a
    required field, extraction succeeds and returns the object with the
    field still absent; nothing checks the fields. *)
Theorem missing_field_passes_through (response : GenerateContentResponse)
    (props : gmap jsstring JSValue) (f : jsstring) :
  f ∈ requiredFields →
  props !! f = None →
  (JSON.parse (jsonCandidate (text response)) = Returned (JObject props) →
     ∃ props', analyzeUrl (Returned response) = Returned (JObject props')
               ∧ props' !! f = None)
  ∧ (parseReply response = Returned (JObject props) →
       analyzeText (Returned response) = Returned (JObject props)
       ∧ analyzeImage (Returned response) = Returned (JObject props)
       ∧ analyzeVideo (Returned response) = Returned (JObject props)).
Proof.
  intros Hf Hx. split.
  - intros H.
    destruct (extractUrl_object_lookup response props f H)
      as (props' & _ & Hu & Hl); [by apply required_not_sources|].
    exists props'. by rewrite Hl.
  - apply parseReply_analyze.
Qed.

Lemma missing_field_passes_through_witness :
  ∃ props', analyzeUrl (groundedReply (Some scorelessPayload) exampleChunks)
            = Returned (JObject props')
            ∧ props' !! lit "confidenceScore" = None.
Proof.
  apply (proj1 (missing_field_passes_through
                  {| text := Some scorelessPayload;
                     candidates := Some [ {| groundingMetadata :=
                         Some {| groundingChunks := Some exampleChunks |} |} ] |}
                  (delete (lit "confidenceScore") exampleProps)
                  (lit "confidenceScore")
                  ltac:(by_decide)
                  ltac:(by vm_compute))).
  by vm_compute.
Defined.

(** C4, as stated, fails: a text without braces can be a JSON text, and
    then extraction succeeds; and when such a text is not JSON,
    [analyzeUrl] returns the fallback object instead of failing. *)
Lemma braceless_counterexample :
  braceFree (lit "123")
  ∧ analyzeUrl (textReply (Some (lit "123"))) = Returned (JNumber (decimal_of_N 123))
  ∧ braceFree (lit "oops")
  ∧ analyzeUrl (textReply (Some (lit "oops"))) = Returned fallbackResult.
Proof.
  split_and!; try reflexivity; split; by_decide.
Qed.

(** C4 (amended): for every non-empty input text containing no opening and
    no closing brace, the entire cleaned text becomes the candidate and the
    candidate is never read as an object; when structural parsing fails,
    [analyzeUrl] returns the fixed fallback object, not an error. *)
Theorem braceless_text (t : jsstring) (cands : option (list Candidate)) :
  t ≠ [] → braceFree t →
  jsonCandidate (Some t) = stripFences t
  ∧ (∀ props, JSON.parse (jsonCandidate (Some t)) ≠ Returned (JObject props))
  ∧ (JSON.parse (stripFences t) = Thrown SyntaxError →
     analyzeUrl (Returned {| text := Some t; candidates := cands |})
     = Returned fallbackResult).
Proof.
  intros Hne [Ho Hc].
  assert (jsonCandidate (Some t) = stripFences t) as Hcand.
  { unfold jsonCandidate. rewrite or_default_nonempty by done.
    apply sliceBraces_none. left. by apply stripFences_not_elem_of. }
  split_and!; [done| |].
  - intros props H. rewrite Hcand in H.
    apply parse_object_braces in H as [H _].
    by apply (stripFences_not_elem_of _ _ Ho).
  - intros H. rewrite analyzeUrl_response. unfold extractUrl.
    cbn [text]. by rewrite Hcand, H.
Qed.

Lemma braceless_text_witness :
  jsonCandidate (Some (lit "oops")) = stripFences (lit "oops")
  ∧ (∀ props, JSON.parse (jsonCandidate (Some (lit "oops"))) ≠ Returned (JObject props))
  ∧ (JSON.parse (stripFences (lit "oops")) = Thrown SyntaxError →
     analyzeUrl (Returned {| text := Some (lit "oops"); candidates := None |})
     = Returned fallbackResult).
Proof.
  apply (braceless_text (lit "oops") None).
  - discriminate.
  - split; by_decide.
Defined.

(** C5, as stated, fails: of a fence with another language tag only the
    backticks are removed, the tag stays in the text; so does an upper-case
    [JSON]; and of a tag that begins with [json] the rest stays. *)
Lemma language_tag_counterexample :
  stripFences (lit "```js" ++ 10%N :: lit "{}" ++ 10%N :: lit "```")
  = lit "js" ++ 10%N :: lit "{}" ++ [10%N]
  ∧ stripFences (lit "```JSON" ++ 10%N :: lit "{}" ++ 10%N :: lit "```")
    = lit "JSON" ++ 10%N :: lit "{}" ++ [10%N]
  ∧ stripFences (lit "```jsonc" ++ 10%N :: lit "{}" ++ 10%N :: lit "```")
    = lit "c" ++ 10%N :: lit "{}" ++ [10%N].
Proof. split_and!; reflexivity. Qed.

(** C5 (amended): for every input text, step 1 removes every occurrence of
    the marker made of three backticks and [json], then every remaining
    triple backtick: the cleaned text has no triple backtick, and it is a
    subsequence of the text in which every character other than the
    backtick and the letters of [json] is kept. Whenever the text without
    its opening and closing fence has no triple backtick, and it has no
    [json] marker besides an opening one, what is left is exactly the text
    before, between and after the two fences (single and double backticks
    included). No language tag is recognized: what follows the three
    backticks of the opening fence stays as content, except a leading
    lower-case [json], which goes with the fence (of [js] and [JSON] all
    stays, of [jsonc] the [c] stays). *)
Theorem fences_removed (t : jsstring) :
  includes (stripFences t) (lit "```") = false
  ∧ stripFences t `sublist_of` t
  ∧ filter (λ x, x ∉ lit "```json") (stripFences t) = filter (λ x, x ∉ lit "```json") t
  ∧ (∀ a b c,
       includes (a ++ b ++ c) (lit "```") = false →
       includes (b ++ lit "```" ++ c) (lit "```json") = false →
       t = a ++ lit "```json" ++ b ++ lit "```" ++ c →
       stripFences t = a ++ b ++ c)
  ∧ (∀ a b c,
       includes (a ++ b ++ c) (lit "```") = false →
       includes t (lit "```json") = false →
       t = a ++ lit "```" ++ b ++ lit "```" ++ c →
       stripFences t = a ++ b ++ c).
Proof.
  split_and!.
  - apply stripFences_free.
  - apply stripFences_sublist.
  - apply stripFences_filter.
  - intros a b c Hf Hj ->. by apply stripFences_json_fenced.
  - intros a b c Hf Hj ->. by apply stripFences_bare_fenced.
Qed.

Lemma fences_removed_witness :
  stripFences (lit "Use `x`: ```json" ++ (10%N :: lit "{} `` " ++ [10%N]) ++ lit "```` Bye")
  = lit "Use `x`: " ++ (10%N :: lit "{} `` " ++ [10%N]) ++ lit "` Bye"
  ∧ stripFences (lit "`" ++ lit "```" ++ (lit "python" ++ 10%N :: lit "x = `1`" ++ [10%N])
                 ++ lit "```" ++ lit " json")
    = lit "`" ++ (lit "python" ++ 10%N :: lit "x = `1`" ++ [10%N]) ++ lit " json"
  ∧ stripFences (lit "```json" ++ (lit "c" ++ 10%N :: lit "{}" ++ [10%N]) ++ lit "```" ++ [])
    = [] ++ (lit "c" ++ 10%N :: lit "{}" ++ [10%N]) ++ [].
Proof.
  split_and!.
  - apply (proj1 (proj2 (proj2 (proj2 (fences_removed _))))
             (lit "Use `x`: ") (10%N :: lit "{} `` " ++ [10%N]) (lit "` Bye"));
      reflexivity.
  - apply (proj2 (proj2 (proj2 (proj2 (fences_removed _))))
             (lit "`") (lit "python" ++ 10%N :: lit "x = `1`" ++ [10%N]) (lit " json"));
      reflexivity.
  - apply (proj1 (proj2 (proj2 (proj2 (fences_removed _))))
             [] (lit "c" ++ 10%N :: lit "{}" ++ [10%N]) []);
      reflexivity.
Defined.

(** C6: for the text that is a fenced code block holding exactly the
    example payload (with the [json] tag or without a tag) and no grounding
    chunks, [analyzeUrl] returns the object of the payload: its
    [confidenceScore] is 87, its [verdict] is [AI], its [indicators] are
    [a] and [b], and it has no [sources]. *)
Theorem fenced_example_extracted (response : GenerateContentResponse) :
  text response = Some (fencedJson examplePayload)
  ∨ text response = Some (fencedBare examplePayload) →
  responseChunks response = None →
  analyzeUrl (Returned response) = Returned (JObject exampleProps)
  ∧ exampleProps !! lit "confidenceScore" = Some (JNumber (decimal_of_N 87))
  ∧ exampleProps !! lit "verdict" = Some (JString (lit "AI"))
  ∧ exampleProps !! lit "indicators"
    = Some (JArray [JString (lit "a"); JString (lit "b")] ∅)
  ∧ exampleProps !! lit "sources" = None.
Proof.
  intros Ht Hc. split_and!; try by vm_compute.
  rewrite analyzeUrl_response. unfold extractUrl. rewrite Hc.
  destruct Ht as [-> | ->]; by vm_compute.
Qed.

Lemma fenced_example_extracted_witness :
  analyzeUrl (textReply (Some (fencedJson examplePayload))) = Returned (JObject exampleProps)
  ∧ exampleProps !! lit "confidenceScore" = Some (JNumber (decimal_of_N 87))
  ∧ exampleProps !! lit "verdict" = Some (JString (lit "AI"))
  ∧ exampleProps !! lit "indicators"
    = Some (JArray [JString (lit "a"); JString (lit "b")] ∅)
  ∧ exampleProps !! lit "sources" = None.
Proof.
  apply (fenced_example_extracted
           {| text := Some (fencedJson examplePayload); candidates := None |}).
  - left. reflexivity.
  - reflexivity.
Defined.

(** C7, as stated, fails: prose that has an opening brace before the fence
    is not discarded, it becomes part of the candidate; the text in prose
    then gives the fallback object and the bare payload its object. *)
Lemma prose_counterexample :
  analyzeUrl (textReply (Some (inProse (lit "See {this}: ") examplePayload [])))
  = Returned fallbackResult
  ∧ analyzeUrl (textReply (Some examplePayload)) = Returned (JObject exampleProps)
  ∧ fallbackResult ≠ JObject exampleProps.
Proof. split_and!; [by vm_compute..|]. by_decide_neq. Qed.

(** C7 (amended): for every payload that is a well-formed JSON object,
    extraction of the payload between a [json] fence and a closing fence,
    with prose before the fence that has no opening brace and prose after
    it that has no closing brace, gives exactly what extraction of the bare
    payload gives: what is outside the first opening brace and the last
    closing brace is discarded. *)
Theorem prose_discarded (pre payload post : jsstring)
    (props : gmap jsstring JSValue) (cands : option (list Candidate)) :
  JSON.parse payload = Returned (JObject props) →
  123%N ∉ pre → 125%N ∉ post →
  extractUrl {| text := Some (inProse pre payload post); candidates := cands |}
  = extractUrl {| text := Some payload; candidates := cands |}
  ∧ analyzeUrl (Returned {| text := Some (inProse pre payload post); candidates := cands |})
    = analyzeUrl (Returned {| text := Some payload; candidates := cands |}).
Proof.
  intros Hp Ho1 Hc2.
  apply parse_object_braces in Hp as [Ho Hc].
  assert (extractUrl {| text := Some (inProse pre payload post); candidates := cands |}
          = extractUrl {| text := Some payload; candidates := cands |}) as E.
  { unfold extractUrl. cbn [text]. by rewrite jsonCandidate_inProse. }
  split; [done|]. by rewrite !analyzeUrl_response, E.
Qed.

Lemma prose_discarded_witness :
  let pre := lit "Sure, here is the analysis:" ++ [10%N] in
  let post := 10%N :: lit "Let me know if you need more." in
  let pre' := lit "Done :} here it is:" ++ [10%N] in
  let post' := 10%N :: lit "{end" in
  (extractUrl {| text := Some (inProse pre examplePayload post); candidates := None |}
   = extractUrl {| text := Some examplePayload; candidates := None |}
   ∧ analyzeUrl (Returned {| text := Some (inProse pre examplePayload post);
                             candidates := None |})
     = analyzeUrl (Returned {| text := Some examplePayload; candidates := None |}))
  ∧ (extractUrl {| text := Some (inProse pre' examplePayload post'); candidates := None |}
     = extractUrl {| text := Some examplePayload; candidates := None |}
     ∧ analyzeUrl (Returned {| text := Some (inProse pre' examplePayload post');
                               candidates := None |})
       = analyzeUrl (Returned {| text := Some examplePayload; candidates := None |})).
Proof.
  split.
  - apply (prose_discarded _ examplePayload _ exampleProps None);
      [by vm_compute | by_decide | by_decide].
  - apply (prose_discarded _ examplePayload _ exampleProps None);
      [by vm_compute | by_decide | by_decide].
Defined.

(** C8: extraction is idempotent: for every response on which the body of
    [analyzeUrl] succeeds, running it again on the extracted candidate
    text, with the same grounding data, succeeds with the same result. *)
Theorem extraction_idempotent (response : GenerateContentResponse) (v : JSValue) :
  extractUrl response = Returned v →
  extractUrl {| text := Some (jsonCandidate (text response));
                candidates := candidates response |} = Returned v.
Proof.
  intros H. rewrite <- H. unfold extractUrl. cbn [text].
  change (responseChunks {| text := Some (jsonCandidate (text response));
                            candidates := candidates response |})
    with (responseChunks response).
  rewrite jsonCandidate_idem; [done|].
  intros E. unfold extractUrl in H. by rewrite E in H.
Qed.

Lemma extraction_idempotent_witness :
  extractUrl {| text := Some (jsonCandidate (Some (fencedJson examplePayload)));
                candidates := None |} = Returned (JObject exampleProps).
Proof.
  apply (extraction_idempotent
           {| text := Some (fencedJson examplePayload); candidates := None |}).
  by vm_compute.
Defined.

(** A failed extraction need not fail again: the empty candidate is
    replaced by the text of the empty object on the second run. *)
Example failed_extraction_not_idempotent :
  extractUrl {| text := Some (lit "}{"); candidates := None |} = Thrown SyntaxError
  ∧ extractUrl {| text := Some (jsonCandidate (Some (lit "}{"))); candidates := None |}
    = Returned (JObject ∅).
Proof. split; reflexivity. Qed.

(** C9, as stated, fails: an empty grounding list is attached as an empty
    [sources], and an entry whose web reference has no URI is kept, with an
    undefined [uri]. *)
Lemma sources_counterexample :
  analyzeUrl (groundedReply (Some examplePayload) [])
  = Returned (JObject (<[lit "sources" := JArray [] ∅]> exampleProps))
  ∧ sourcesOf [ {| web := Some {| uri := None; title := Some (lit "T") |} |} ]
    = [source JUndefined (lit "T")].
Proof. split; by vm_compute. Qed.

(** C9 (amended): for every grounding list supplied alongside a successful
    extraction, each entry exposing a web reference is mapped to a pair of
    [uri] and [title], the title defaulting to the placeholder [Fuente]
    when absent or empty; entries without a web reference are skipped (an
    entry whose web reference has no URI is kept, with an undefined [uri]);
    the resulting sequence is attached as [sources] whenever a grounding
    list is supplied, empty or not, and nothing is attached without one. For
    the references of the example the attached sources are the one pair of
    [https://x] and [X]. *)
Theorem sources_attached (response : GenerateContentResponse)
    (props : gmap jsstring JSValue) :
  JSON.parse (jsonCandidate (text response)) = Returned (JObject props) →
  (∀ chunks, responseChunks response = Some chunks →
     analyzeUrl (Returned response)
     = Returned (JObject (<[lit "sources" := JArray (sourcesOf chunks) ∅]> props)))
  ∧ (responseChunks response = None →
     analyzeUrl (Returned response) = Returned (JObject props))
  ∧ sourcesOf [] = []
  ∧ (∀ c cs, sourcesOf (c :: cs) =
       match web c with
       | Some w => source (opt_string (uri w))
                     (match title w with
                      | Some (x :: t) => x :: t
                      | _ => lit "Fuente"
                      end) :: sourcesOf cs
       | None => sourcesOf cs
       end)
  ∧ sourcesOf exampleChunks = [source (JString (lit "https://x")) (lit "X")].
Proof.
  intros H. split_and!.
  - intros chunks Hc. rewrite analyzeUrl_response, (extractUrl_object _ _ H), Hc. done.
  - intros Hc. rewrite analyzeUrl_response, (extractUrl_object _ _ H), Hc. done.
  - reflexivity.
  - intros c cs. unfold sourcesOf. cbn [omap list_omap].
    by destruct (web c) as [w|].
  - reflexivity.
Qed.

Lemma sources_attached_witness :
  analyzeUrl (groundedReply (Some (fencedJson examplePayload)) exampleChunks)
  = Returned (JObject (<[lit "sources" :=
                           JArray [source (JString (lit "https://x")) (lit "X")] ∅]>
                         exampleProps)).
Proof.
  apply (proj1 (sources_attached
                  {| text := Some (fencedJson examplePayload);
                     candidates := Some [ {| groundingMetadata :=
                         Some {| groundingChunks := Some exampleChunks |} |} ] |}
                  exampleProps ltac:(by vm_compute)) exampleChunks).
  reflexivity.
Defined.

(** C10: when the text of the response is absent or empty, the four
    functions parse the text of the empty object: each returns, without an
    error, an object in which the five fields of the result are absent. *)
Theorem empty_text_empty_object (response : GenerateContentResponse) :
  text response = None ∨ text response = Some [] →
  (∃ props, analyzeUrl (Returned response) = Returned (JObject props)
            ∧ ∀ f, f ∈ requiredFields → props !! f = None)
  ∧ or_default (text response) (lit "{}") = lit "{}"
  ∧ analyzeText (Returned response) = Returned (JObject ∅)
  ∧ analyzeImage (Returned response) = Returned (JObject ∅)
  ∧ analyzeVideo (Returned response) = Returned (JObject ∅).
Proof.
  intros Ht.
  assert (JSON.parse (jsonCandidate (text response)) = Returned (JObject ∅)) as Hu
    by by destruct Ht as [-> | ->].
  assert (parseReply response = Returned (JObject ∅)) as Hp.
  { unfold parseReply. by destruct Ht as [-> | ->]. }
  split_and!.
  - eexists. rewrite analyzeUrl_response, (extractUrl_object _ _ Hu).
    split; [done|]. intros f Hf.
    destruct (responseChunks response); [|done].
    rewrite lookup_insert_ne; [done|]. intros E. by apply (required_not_sources f).
  - by destruct Ht as [-> | ->].
  - by apply parseReply_analyze.
  - by apply parseReply_analyze.
  - by apply parseReply_analyze.
Qed.

Lemma empty_text_empty_object_witness :
  (∃ props, analyzeUrl (groundedReply None exampleChunks) = Returned (JObject props)
            ∧ ∀ f, f ∈ requiredFields → props !! f = None)
  ∧ analyzeText (textReply (Some [])) = Returned (JObject ∅).
Proof.
  split.
  - apply (proj1 (empty_text_empty_object
                    {| text := None;
                       candidates := Some [ {| groundingMetadata :=
                           Some {| groundingChunks := Some exampleChunks |} |} ] |}
                    ltac:(left; reflexivity))).
  - apply (proj2 (empty_text_empty_object
                    {| text := Some []; candidates := None |}
                    ltac:(right; reflexivity))).
Defined.

(** * Further properties of the service *)

Section ServiceExtras.

Implicit Types (response : GenerateContentResponse) (reply : ApiReply)
  (props : gmap jsstring JSValue) (v : JSValue) (s t : jsstring).

Lemma analyzeUrl_returns reply : ∃ v, analyzeUrl reply = Returned v.
Proof.
  destruct reply as [response|e]; [|by eexists].
  rewrite analyzeUrl_response. destruct (extractUrl response); by eexists.
Qed.

(** X1: [analyzeUrl] never throws: whatever the remote call does, it
    returns a value, which is the result of the extraction or the fallback
    object. *)
Theorem analyzeUrl_never_throws reply :
  ∃ v, analyzeUrl reply = Returned v
       ∧ (v = fallbackResult
          ∨ ∃ response, reply = Returned response ∧ extractUrl response = Returned v).
Proof.
  destruct reply as [response|e].
  - rewrite analyzeUrl_response.
    destruct (extractUrl response) as [v|e'] eqn:E; cbn; eauto 6.
  - exists fallbackResult. split; [done | by left].
Qed.

Lemma substring_infix s a b : ∃ x y, s = x ++ substring s a b ++ y.
Proof.
  unfold substring.
  set (n := Z.to_nat _). set (k := Z.to_nat _).
  exists (take k s), (drop n (drop k s)).
  by rewrite take_drop, take_drop.
Qed.

(** X2: the text handed to [JSON.parse] by [analyzeUrl] is a contiguous part
    of the cleaned text, and it has no triple backtick. *)
Theorem candidate_part_of_cleaned_text (response_text : option jsstring) :
  (∃ x y, stripFences (or_default response_text (lit "{}"))
          = x ++ jsonCandidate response_text ++ y)
  ∧ includes (jsonCandidate response_text) (lit "```") = false.
Proof.
  split; [|apply jsonCandidate_free].
  unfold jsonCandidate, sliceBraces. case_match.
  - apply substring_infix.
  - exists [], []. by rewrite app_nil_r.
Qed.

(** X3: when the first opening brace comes before the last closing brace,
    the slice runs from the one to the other, both included: what is
    before and after is dropped whatever it is, and what is between is kept
    whatever it is. *)
Theorem slice_from_first_to_last_brace (before between after : jsstring) :
  123%N ∉ before → 125%N ∉ after →
  sliceBraces (before ++ 123%N :: between ++ 125%N :: after)
  = 123%N :: between ++ [125%N].
Proof. apply sliceBraces_span. Qed.

Lemma slice_from_first_to_last_brace_witness :
  sliceBraces (lit "so} {{a} b} c{ ") = lit "{{a} b}".
Proof.
  apply (slice_from_first_to_last_brace (lit "so} ") (lit "{a} b") (lit " c{ "));
    by_decide.
Defined.

(** X4: when the last closing brace comes before the first opening brace,
    [substring] swaps its arguments: the slice is the text strictly
    between the two braces, which has no brace. *)
Theorem slice_of_crossed_braces (before between after : jsstring) :
  123%N ∉ before → braceFree between → 125%N ∉ after →
  sliceBraces (before ++ 125%N :: between ++ 123%N :: after) = between.
Proof. intros Hb [Ho Hc] Ha. by apply sliceBraces_crossed. Qed.

Lemma slice_of_crossed_braces_witness :
  sliceBraces (lit "a}} 123 {{b") = lit " 123 ".
Proof.
  apply (slice_of_crossed_braces (lit "a}") (lit " 123 ") (lit "{b"));
    try split; by_decide.
Defined.

(** X5: on a response whose text is already a bare object text (it starts
    with an opening brace, ends with a closing brace and has no triple
    backtick) and that has no grounding chunks, the tolerant path of
    [analyzeUrl] parses the very text that [analyzeText], [analyzeImage] and
    [analyzeVideo] parse; when the text is valid JSON the four functions
    return the same value. *)
Theorem bare_object_text_same_result response (inner : jsstring) v :
  text response = Some (123%N :: inner ++ [125%N]) →
  includes (123%N :: inner ++ [125%N]) (lit "```") = false →
  responseChunks response = None →
  extractUrl response = parseReply response
  ∧ (parseReply response = Returned v →
     analyzeUrl (Returned response) = Returned v
     ∧ analyzeText (Returned response) = Returned v
     ∧ analyzeImage (Returned response) = Returned v
     ∧ analyzeVideo (Returned response) = Returned v).
Proof.
  intros Ht Hf Hc.
  assert (extractUrl response = parseReply response) as E.
  { unfold extractUrl, parseReply, jsonCandidate. rewrite Hc, Ht.
    cbn [or_default]. rewrite stripFences_id by done.
    pose proof (sliceBraces_span [] inner [] (not_elem_of_nil _) (not_elem_of_nil _)) as Hs.
    cbn [app] in Hs. rewrite Hs. by destruct (JSON.parse _). }
  split; [done|]. intros Hp. split; [|by apply parseReply_analyze].
  by rewrite analyzeUrl_response, E, Hp.
Qed.

Lemma bare_object_text_same_result_witness :
  analyzeUrl (textReply (Some examplePayload)) = Returned (JObject exampleProps)
  ∧ analyzeText (textReply (Some examplePayload)) = Returned (JObject exampleProps).
Proof.
  pose proof (bare_object_text_same_result
                {| text := Some examplePayload; candidates := None |}
                (take 95 (drop 1 examplePayload)) (JObject exampleProps)
                ltac:(by vm_compute) ltac:(by vm_compute) ltac:(reflexivity)) as [_ H].
  destruct (H ltac:(by vm_compute)) as (H1 & H2 & _). by split.
Defined.

(** X6: with grounding chunks, a candidate that is valid JSON but neither an
    object nor an array (a number, a string, a boolean, null) makes the
    assignment of [sources] throw, and [analyzeUrl] returns the fallback
    object; an array gets the [sources] property and is returned. *)
Theorem grounded_primitive_falls_back response v (chunks : list GroundingChunk) :
  JSON.parse (jsonCandidate (text response)) = Returned v →
  responseChunks response = Some chunks →
  match v with
  | JObject props =>
      analyzeUrl (Returned response)
      = Returned (JObject (<[lit "sources" := JArray (sourcesOf chunks) ∅]> props))
  | JArray elems named =>
      analyzeUrl (Returned response)
      = Returned (JArray elems (<[lit "sources" := JArray (sourcesOf chunks) ∅]> named))
  | _ => extractUrl response = Thrown TypeError
         ∧ analyzeUrl (Returned response) = Returned fallbackResult
  end.
Proof.
  intros Hp Hc. rewrite analyzeUrl_response. unfold extractUrl. rewrite Hp, Hc.
  by destruct v.
Qed.

Lemma grounded_primitive_falls_back_witness :
  extractUrl {| text := Some (lit "123");
                candidates := Some [ {| groundingMetadata :=
                    Some {| groundingChunks := Some exampleChunks |} |} ] |}
  = Thrown TypeError
  ∧ analyzeUrl (groundedReply (Some (lit "123")) exampleChunks) = Returned fallbackResult.
Proof.
  apply (grounded_primitive_falls_back
           {| text := Some (lit "123");
              candidates := Some [ {| groundingMetadata :=
                  Some {| groundingChunks := Some exampleChunks |} |} ] |}
           (JNumber (decimal_of_N 123)) exampleChunks);
    reflexivity.
Defined.

(** X7: the attached sources keep the order of the grounding chunks, there
    are at most as many as chunks, and each is a pair whose [title] is a
    non-empty string and whose [uri] is a string or undefined. *)
Theorem sources_well_formed (chunks more : list GroundingChunk) :
  sourcesOf (chunks ++ more) = sourcesOf chunks ++ sourcesOf more
  ∧ (length (sourcesOf chunks) ≤ length chunks)%nat
  ∧ ∀ src : JSValue, src ∈ sourcesOf chunks →
      ∃ (u : JSValue) (ttl : jsstring),
        src = source u ttl ∧ ttl ≠ [] ∧ (u = JUndefined ∨ ∃ x, u = JString x).
Proof.
  unfold sourcesOf. split_and!.
  - by rewrite omap_app, map_app.
  - rewrite length_map. induction chunks as [|c cs IH]; [done|].
    cbn [omap list_omap]. destruct (web c); simpl; lia.
  - intros src Hs. apply list_elem_of_In, in_map_iff in Hs as (w & <- & _).
    exists (opt_string (uri w)), (or_default (title w) (lit "Fuente")).
    split_and!; [done| |].
    + by destruct (title w) as [[|c t]|].
    + destruct (uri w); cbn; eauto.
Qed.

End ServiceExtras.

(** * The result card *)

Section CardExtras.

Implicit Types (props : gmap jsstring JSValue) (v : JSValue) (view : CardView).

(** X8: the heading and the colour follow the verdict: [AI] and [Human]
    have their own, and every other value of [verdict] (the third literal,
    an unrecognized string, a value of another type, an absent field) is
    shown as uncertain, in yellow. *)
Theorem card_heading_follows_verdict (result : JSValue) view :
  ResultCard result false = Returned (Card view) →
  ∃ verdict, getProp result (lit "verdict") = Returned verdict
    ∧ (verdict = JString (lit "AI") →
       heading view = lit "Probablemente IA" ∧ colorClass view = lit "rose")
    ∧ (verdict = JString (lit "Human") →
       heading view = lit "Probablemente Humano" ∧ colorClass view = lit "emerald")
    ∧ (verdict ≠ JString (lit "AI") → verdict ≠ JString (lit "Human") →
       heading view = lit "Incierto" ∧ colorClass view = lit "yellow").
Proof.
  unfold ResultCard. intros H. destruct (negb (truthy result)); [done|].
  destruct (getProp result (lit "verdict")) as [verdict|] eqn:Ev; [|done].
  cbn [mbind outcome_bind] in H.
  destruct (getProp result (lit "confidenceScore")); [|done]. cbn [mbind outcome_bind] in H.
  destruct (getProp result (lit "reasoning")); [|done]. cbn [mbind outcome_bind] in H.
  destruct (getProp result (lit "indicators")); [|done]. cbn [mbind outcome_bind] in H.
  destruct (mapElements _); [|done]. cbn [mbind outcome_bind] in H.
  destruct (getProp result (lit "sources")); [|done]. cbn [mbind outcome_bind] in H.
  match type of H with mbind _ ?m = _ => destruct m; [|done] end.
  cbn [mbind outcome_bind] in H. injection H as <-. cbn [heading colorClass].
  exists verdict. split; [done|]. split_and!.
  - by intros ->.
  - by intros ->.
  - intros H1 H2.
    assert (isString verdict (lit "AI") = false) as ->.
    { destruct verdict; try done. apply bool_decide_eq_false. by intros ->. }
    assert (isString verdict (lit "Human") = false) as ->; [|done].
    destruct verdict; try done. apply bool_decide_eq_false. by intros ->.
Qed.

Lemma card_heading_follows_verdict_witness :
  let result := JObject (<[lit "verdict" := JString (lit "Robot")]> exampleProps) in
  let view := {| colorClass := lit "yellow"; heading := lit "Incierto";
                 score := JNumber (decimal_of_N 87); reasoning := JString (lit "r");
                 indicators := [JString (lit "a"); JString (lit "b")];
                 sources := SourcesValue JUndefined |} in
  ∃ verdict, getProp result (lit "verdict") = Returned verdict
    ∧ (verdict = JString (lit "AI") →
       heading view = lit "Probablemente IA" ∧ colorClass view = lit "rose")
    ∧ (verdict = JString (lit "Human") →
       heading view = lit "Probablemente Humano" ∧ colorClass view = lit "emerald")
    ∧ (verdict ≠ JString (lit "AI") → verdict ≠ JString (lit "Human") →
       heading view = lit "Incierto" ∧ colorClass view = lit "yellow").
Proof.
  apply (card_heading_follows_verdict
           (JObject (<[lit "verdict" := JString (lit "Robot")]> exampleProps))).
  by vm_compute.
Defined.

Lemma ResultCard_object props :
  ResultCard (JObject props) false =
  (inds ← mapElements (default JUndefined (props !! lit "indicators"));
   srcs ← (if truthy (default JUndefined (props !! lit "sources"))
           then elems ← mapElements (default JUndefined (props !! lit "sources"));
                links ← mapM sourceLink elems; Returned (SourcesList links)
           else Returned (SourcesValue (default JUndefined (props !! lit "sources"))));
   Returned (Card {|
     colorClass :=
       if isString (default JUndefined (props !! lit "verdict")) (lit "AI")
       then lit "rose"
       else if isString (default JUndefined (props !! lit "verdict")) (lit "Human")
            then lit "emerald" else lit "yellow";
     heading :=
       if isString (default JUndefined (props !! lit "verdict")) (lit "AI")
       then lit "Probablemente IA"
       else if isString (default JUndefined (props !! lit "verdict")) (lit "Human")
            then lit "Probablemente Humano" else lit "Incierto";
     score := default JUndefined (props !! lit "confidenceScore");
     reasoning := default JUndefined (props !! lit "reasoning");
     indicators := inds;
     sources := srcs |})).
Proof. reflexivity. Qed.

Lemma ResultCard_no_indicators props :
  (∀ elems named, props !! lit "indicators" ≠ Some (JArray elems named)) →
  ResultCard (JObject props) false = Thrown TypeError.
Proof.
  intros H. rewrite ResultCard_object.
  destruct (props !! lit "indicators") as [[]|] eqn:E; try done.
  by destruct (H elems named).
Qed.

(** X9: a result object whose [indicators] is not an array makes the card
    throw a [TypeError] while it renders: nothing checks the field before
    [map] is called on it. *)
Theorem card_needs_indicators props :
  (∀ elems named, props !! lit "indicators" ≠ Some (JArray elems named)) →
  ResultCard (JObject props) false = Thrown TypeError.
Proof. apply ResultCard_no_indicators. Qed.

Lemma card_needs_indicators_witness :
  ResultCard (JObject (delete (lit "indicators") exampleProps)) false = Thrown TypeError.
Proof.
  apply card_needs_indicators. intros elems named. by vm_compute.
Defined.

(** X10: when the text of the response is absent or empty, what each of the
    four functions returns (the empty object, with [sources] added by
    [analyzeUrl] when there are grounding chunks) makes the card throw. *)
Theorem empty_reply_breaks_card (response : GenerateContentResponse) v :
  text response = None ∨ text response = Some [] →
  analyzeUrl (Returned response) = Returned v
  ∨ analyzeText (Returned response) = Returned v
  ∨ analyzeImage (Returned response) = Returned v
  ∨ analyzeVideo (Returned response) = Returned v →
  ResultCard v false = Thrown TypeError.
Proof.
  intros Ht Hv.
  assert (JSON.parse (jsonCandidate (text response)) = Returned (JObject ∅)) as Hu
    by by destruct Ht as [-> | ->].
  assert (parseReply response = Returned (JObject ∅)) as Hp.
  { unfold parseReply. by destruct Ht as [-> | ->]. }
  destruct (parseReply_analyze _ _ Hp) as (Ha & Hb & Hc).
  rewrite analyzeUrl_response, (extractUrl_object _ _ Hu), Ha, Hb, Hc in Hv.
  destruct Hv as [Hv|[Hv|[Hv|Hv]]]; injection Hv as <-;
    apply ResultCard_no_indicators; intros elems named.
  - destruct (responseChunks response); [|done].
    by rewrite lookup_insert_ne.
  - done.
  - done.
  - done.
Qed.

Lemma empty_reply_breaks_card_witness :
  ResultCard (JObject (<[lit "sources" := JArray (sourcesOf exampleChunks) ∅]> ∅)) false
  = Thrown TypeError.
Proof.
  apply (empty_reply_breaks_card
           {| text := None;
              candidates := Some [ {| groundingMetadata :=
                  Some {| groundingChunks := Some exampleChunks |} |} ] |}).
  - by left.
  - left. reflexivity.
Defined.

(** X11: every failure of the extraction in [analyzeUrl] is shown as an
    uncertain verdict: the card of what [analyzeUrl] returns has the heading
    [Incierto] in yellow, the score 0, the one indicator of the fallback
    object and no sources. *)
Theorem failed_url_analysis_shown_uncertain (reply : ApiReply) (e : exn) :
  (response ← reply; extractUrl response) = Thrown e →
  ∃ view reason,
    (v ← analyzeUrl reply; ResultCard v false) = Returned (Card view)
    ∧ heading view = lit "Incierto"
    ∧ colorClass view = lit "yellow"
    ∧ score view = JNumber (decimal_of_N 0)
    ∧ reasoning view = JString reason
    ∧ indicators view = [JString (lit "Error de an" ++ a_acute :: lit "lisis")]
    ∧ sources view = SourcesValue JUndefined.
Proof.
  intros H. unfold analyzeUrl. rewrite H. cbn [try_catch mbind outcome_bind].
  eexists _, _. split; [by vm_compute|]. split_and!; reflexivity.
Qed.

Lemma failed_url_analysis_shown_uncertain_witness :
  ∃ view reason,
    (v ← analyzeUrl (Thrown ApiError); ResultCard v false) = Returned (Card view)
    ∧ heading view = lit "Incierto"
    ∧ colorClass view = lit "yellow"
    ∧ score view = JNumber (decimal_of_N 0)
    ∧ reasoning view = JString reason
    ∧ indicators view = [JString (lit "Error de an" ++ a_acute :: lit "lisis")]
    ∧ sources view = SourcesValue JUndefined.
Proof.
  apply (failed_url_analysis_shown_uncertain (Thrown ApiError) ApiError). reflexivity.
Defined.

Lemma sourceLink_sourceOf (w : GroundingChunkWeb) :
  sourceLink (sourceOf w)
  = Returned (opt_string (uri w), JString (or_default (title w) (lit "Fuente"))).
Proof.
  unfold sourceLink, sourceOf, getProp.
  rewrite lookup_insert_eq, lookup_insert_ne, lookup_insert_eq by done. done.
Qed.

Lemma mapM_sourceLink (ws : list GroundingChunkWeb) :
  mapM sourceLink (map sourceOf ws)
  = Returned (map (λ w, (opt_string (uri w),
                         JString (or_default (title w) (lit "Fuente")))) ws).
Proof.
  induction ws as [|w ws IH]; [done|].
  cbn [map mapM]. rewrite sourceLink_sourceOf, IH. done.
Qed.

(** X12: with grounding chunks and a payload object whose [indicators] is
    an array, and whose [confidenceScore], [reasoning] and indicators are
    values that React accepts as children (no plain object), the card of
    what [analyzeUrl] returns has only children that React accepts: those
    indicators, and a sources section with one link per chunk that has a
    web reference, in order; the link text is the title or [Fuente], the
    address is the URI or undefined. With an empty grounding list the
    section is there and empty. *)
Theorem grounded_result_card (response : GenerateContentResponse) props
    (inds : list JSValue) (chunks : list GroundingChunk) :
  JSON.parse (jsonCandidate (text response)) = Returned (JObject props) →
  props !! lit "indicators" = Some (JArray inds ∅) →
  responseChunks response = Some chunks →
  renderable (default JUndefined (props !! lit "confidenceScore")) = true →
  renderable (default JUndefined (props !! lit "reasoning")) = true →
  forallb renderable inds = true →
  ∃ view,
    (v ← analyzeUrl (Returned response); ResultCard v false) = Returned (Card view)
    ∧ childrenRenderable view = true
    ∧ indicators view = inds
    ∧ sources view =
      SourcesList (map (λ w, (opt_string (uri w),
                              JString (or_default (title w) (lit "Fuente"))))
                       (omap web chunks)).
Proof.
  intros Hp Hi Hc Hs Hr Hinds.
  rewrite analyzeUrl_response, (extractUrl_object _ _ Hp), Hc.
  cbn [try_catch mbind outcome_bind]. rewrite ResultCard_object.
  rewrite lookup_insert_eq, !lookup_insert_ne, Hi by done.
  cbn [default from_option id mapElements truthy]. rewrite !lookup_empty.
  cbn [mbind outcome_bind]. unfold sourcesOf. rewrite mapM_sourceLink.
  cbn [mbind outcome_bind]. eexists. split_and!; try reflexivity.
  unfold childrenRenderable. cbn [score reasoning indicators sources].
  rewrite Hs, Hr, Hinds. cbn [andb].
  induction (omap web chunks) as [|w ws IH]; [done|]. exact IH.
Qed.

Lemma grounded_result_card_witness :
  ∃ view,
    (v ← analyzeUrl (groundedReply (Some examplePayload) exampleChunks);
     ResultCard v false) = Returned (Card view)
    ∧ childrenRenderable view = true
    ∧ indicators view = [JString (lit "a"); JString (lit "b")]
    ∧ sources view = SourcesList [(JString (lit "https://x"), JString (lit "X"))].
Proof.
  apply (grounded_result_card
           {| text := Some examplePayload;
              candidates := Some [ {| groundingMetadata :=
                  Some {| groundingChunks := Some exampleChunks |} |} ] |}
           exampleProps [JString (lit "a"); JString (lit "b")] exampleChunks);
    by vm_compute.
Defined.

End CardExtras.

(** * The page *)

Section SplitFacts.

Implicit Types (s a b cur : jsstring) (c : jschar).

Lemma starts_with_single_cons c x s : starts_with [c] (x :: s) = eqb c x.
Proof. rewrite starts_with_cons. by destruct (eqb c x). Qed.

Lemma split_go_notin c s cur : c ∉ s → split_go [c] O s cur = [cur ++ s].
Proof.
  revert cur. induction s as [|x s IH]; intros cur H.
  - by rewrite app_nil_r.
  - apply not_elem_of_cons in H as [Hx H]. cbn [split_go].
    rewrite starts_with_single_cons.
    assert (eqb c x = false) as -> by by apply eqb_false.
    rewrite IH by done. by rewrite <- app_assoc.
Qed.

Lemma split_go_first c a b cur :
  c ∉ a → split_go [c] O (a ++ c :: b) cur = (cur ++ a) :: split_go [c] O b [].
Proof.
  revert cur. induction a as [|x a IH]; intros cur H.
  - cbn [app split_go]. rewrite starts_with_single_cons.
    assert (eqb c c = true) as -> by by apply eqb_true.
    by rewrite app_nil_r.
  - apply not_elem_of_cons in H as [Hx H]. cbn [app split_go].
    rewrite starts_with_single_cons.
    assert (eqb c x = false) as -> by by apply eqb_false.
    rewrite IH by done. by rewrite <- app_assoc.
Qed.

End SplitFacts.

(** X13: [fileToBase64] resolves with what follows the first comma of the
    data URL, up to the next comma if there is one, and with [undefined]
    when the URL has no comma. *)
Theorem base64_after_first_comma (header data : jsstring) :
  44%N ∉ header → 44%N ∉ data →
  base64Of (header ++ 44%N :: data) = Some data
  ∧ (∀ more, base64Of (header ++ 44%N :: data ++ 44%N :: more) = Some data)
  ∧ base64Of header = None.
Proof.
  intros Hh Hd. unfold base64Of, split. change (lit ",") with [44%N].
  split_and!.
  - rewrite split_go_first, split_go_notin by done. done.
  - intros more. rewrite !split_go_first by done. done.
  - rewrite split_go_notin by done. done.
Qed.

Lemma base64_after_first_comma_witness :
  base64Of (lit "data:image/png;base64" ++ 44%N :: lit "iVBORw0KGgo=") = Some (lit "iVBORw0KGgo=")
  ∧ (∀ more, base64Of (lit "data:image/png;base64" ++ 44%N :: lit "iVBORw0KGgo="
                         ++ 44%N :: more) = Some (lit "iVBORw0KGgo="))
  ∧ base64Of (lit "data:image/png;base64") = None.
Proof.
  apply (base64_after_first_comma (lit "data:image/png;base64") (lit "iVBORw0KGgo="));
    by_decide.
Defined.

Section TrimFacts.

Implicit Types (s : jsstring) (c : jschar).

Lemma trimStart_nil s : trimStart s = [] ↔ forallb isTrimmed s = true.
Proof.
  induction s as [|c s IH]; [done|]. cbn [trimStart forallb].
  destruct (isTrimmed c); [exact IH | done].
Qed.

Lemma trimStart_suffix s : trimStart s `suffix_of` s.
Proof.
  induction s as [|c s IH]; [done|]. cbn [trimStart].
  destruct (isTrimmed c); [by apply suffix_cons_r | done].
Qed.

Lemma trimStart_head s c r : trimStart s = c :: r → isTrimmed c = false.
Proof.
  induction s as [|x s IH]; [done|]. cbn [trimStart].
  destruct (isTrimmed x) eqn:E; [exact IH|]. by intros [= <- <-].
Qed.

Lemma forallb_rev (f : N → bool) s : forallb f (rev s) = forallb f s.
Proof.
  induction s as [|c s IH]; [done|].
  cbn [rev forallb]. rewrite forallb_app, IH. cbn. by rewrite andb_true_r, andb_comm.
Qed.

(** The trimmed text is empty exactly when every character of the text is
    white space or a line terminator. *)
Lemma trim_nil s : trim s = [] ↔ forallb isTrimmed s = true.
Proof.
  unfold trim. split.
  - intros H.
    assert (trimStart (rev (trimStart s)) = []) as H'.
    { destruct (trimStart (rev (trimStart s))) as [|x l]; [done|].
      cbn [rev] in H. by destruct (rev l). }
    apply trimStart_nil in H'. rewrite forallb_rev in H'.
    destruct (trimStart s) as [|c r] eqn:E; [by apply trimStart_nil|].
    apply trimStart_head in E. cbn [forallb] in H'. by rewrite E in H'.
  - intros H. apply trimStart_nil in H. by rewrite H.
Qed.

End TrimFacts.

Section PageExtras.

Variable engineMessage : exn → jsstring.

Implicit Types (reply : ApiReply) (read : FileRead) (st : AppState) (v : JSValue).

(** X14: a file is accepted exactly when it has at most 10 MiB (the bound
    included); a larger one only sets the error: the file selected before
    stays selected, and the next analysis is the one of that file, as if
    the larger one had not been chosen. *)
Theorem file_size_limit (file : File) (others : list File) (url : jsstring) st reply read :
  let st' := handleFileChange (Some (file :: others)) url st in
  ((fileSize file ≤ 10485760) →
     selectedFile st' = Some file ∧ previewUrl st' = Some url
     ∧ error st' = None ∧ result st' = JNull)
  ∧ ((10485760 < fileSize file) →
     selectedFile st' = selectedFile st ∧ previewUrl st' = previewUrl st
     ∧ result st' = result st ∧ error st' = Some tooLargeMessage
     ∧ handleAnalyze engineMessage reply read st' = handleAnalyze engineMessage reply read st).
Proof.
  cbn zeta. unfold handleFileChange. change maxFileSize with 10485760.
  split; intros H.
  - assert ((10485760 <? fileSize file) = false) as -> by lia. done.
  - assert ((10485760 <? fileSize file) = true) as -> by lia. done.
Qed.

(** X15: on the URL tab, once the input is not blank, the page never shows
    an error: whatever the remote call does, the state ends with no error,
    not loading, and with what [analyzeUrl] returned as its result. *)
Theorem url_tab_never_shows_error reply read st :
  activeTab st = lit "URL" → trim (inputText st) ≠ [] →
  let st' := handleAnalyze engineMessage reply read st in
  error st' = None ∧ loading st' = false ∧ analyzeUrl reply = Returned (result st').
Proof.
  intros Ht Hi. cbn zeta. unfold handleAnalyze, analysis.
  rewrite Ht, bool_decide_eq_true_2 by done.
  rewrite bool_decide_eq_false_2 by done.
  destruct (analyzeUrl_returns reply) as (v & ->). done.
Qed.

(** X16: on the URL and TEXT tabs an input made only of white space and line
    terminators (the empty input included) is refused with the message of
    the tab; the reply of the model has no part in the outcome. *)
Theorem blank_input_refused reply read st :
  activeTab st = lit "URL" ∨ activeTab st = lit "TEXT" →
  forallb isTrimmed (inputText st) = true →
  let st' := handleAnalyze engineMessage reply read st in
  result st' = JNull
  ∧ error st' = Some (if bool_decide (activeTab st = lit "URL")
                      then lit "Ingresa un enlace v" ++ a_acute :: lit "lido."
                      else lit "Ingresa texto.")
  ∧ ∀ reply' read', handleAnalyze engineMessage reply' read' st = st'.
Proof.
  intros Ht Hb%trim_nil. cbn zeta. unfold handleAnalyze, analysis.
  destruct Ht as [Ht|Ht]; rewrite Ht, Hb; by vm_compute.
Qed.

Lemma analyze_outcomes reply :
  ((∃ v, analyzeText reply = Returned v)
   ∨ analyzeText reply = Thrown (Error (lit "Error al analizar texto.")))
  ∧ ((∃ v, analyzeImage reply = Returned v)
     ∨ analyzeImage reply = Thrown (Error (lit "Error al analizar imagen.")))
  ∧ ((∃ v, analyzeVideo reply = Returned v)
     ∨ analyzeVideo reply = Thrown (Error (lit "Error al analizar video."))).
Proof.
  unfold analyzeText, analyzeImage, analyzeVideo.
  destruct (x ← reply; parseReply x); cbn; split_and!; eauto.
Qed.

(** X17: the error that the page shows after an analysis is one of the
    five messages of the page, the message of the analysis function of the
    tab, or, when reading the file failed, the default message: a message
    of the engine or of the client library never reaches the page. *)
Theorem shown_error_messages reply read st (msg : jsstring) :
  error (handleAnalyze engineMessage reply read st) = Some msg →
  result (handleAnalyze engineMessage reply read st) = JNull
  ∧ (msg ∈ validationMessages
     ∨ (activeTab st = lit "TEXT" ∧ msg = lit "Error al analizar texto.")
     ∨ (activeTab st = lit "IMAGE" ∧ msg = lit "Error al analizar imagen.")
     ∨ (activeTab st = lit "VIDEO" ∧ msg = lit "Error al analizar video.")
     ∨ (read = ReadFailed ∧ msg = lit "Error inesperado."
        ∧ (activeTab st = lit "IMAGE" ∨ activeTab st = lit "VIDEO"))).
Proof.
  unfold handleAnalyze, analysis.
  destruct (analyzeUrl_returns reply) as (v & ->).
  destruct (analyze_outcomes reply) as (Ht & Hi & Hv).
  destruct Ht as [[? ->] | ->], Hi as [[? ->] | ->], Hv as [[? ->] | ->];
    repeat case_bool_decide; destruct (selectedFile st), read; cbn;
    intros Hm; try discriminate Hm; injection Hm as <-; (split; [done|]);
    first [ left; by_decide
          | right; left; done
          | do 2 right; left; done
          | do 3 right; left; done
          | do 4 right; auto ].
Qed.

(** X18: a result that is falsy (null, false, zero, the empty string)
    leaves the page with no error and an empty card: nothing tells the user
    that the analysis ended. *)
Theorem falsy_result_shows_nothing reply read st v :
  activeTab st = lit "TEXT" → trim (inputText st) ≠ [] →
  analyzeText reply = Returned v → truthy v = false →
  let st' := handleAnalyze engineMessage reply read st in
  error st' = None
  ∧ ResultCard (result st') (loading st') = Returned Nothing.
Proof.
  intros Ht Hi Hv Hf. cbn zeta. unfold handleAnalyze, analysis.
  rewrite Ht. rewrite (bool_decide_eq_false_2 (lit "TEXT" = lit "URL")) by done.
  rewrite bool_decide_eq_true_2 by done.
  rewrite bool_decide_eq_false_2 by done.
  rewrite Hv. cbn. unfold ResultCard. by rewrite Hf.
Qed.

(** X19: right after a change of tab an analysis is always refused with one
    of the messages of the page, whatever the tab and whatever the state
    was: the input and the selected file have been cleared. *)
Theorem analysis_after_tab_change (tab : jsstring) reply read st :
  let st' := handleAnalyze engineMessage reply read (handleTabChange tab st) in
  result st' = JNull ∧ loading st' = false
  ∧ ∃ msg, error st' = Some msg ∧ msg ∈ validationMessages.
Proof.
  cbn zeta. unfold handleAnalyze, analysis, handleTabChange.
  cbn [activeTab inputText selectedFile].
  repeat case_bool_decide; try done;
    (split_and!; [done..|eexists; split; [done|by_decide]]).
Qed.

End PageExtras.

Lemma file_size_limit_witness :
  let st := {| activeTab := lit "IMAGE"; inputText := [];
               selectedFile := Some {| fileSize := 5; fileType := lit "image/png" |};
               previewUrl := Some (lit "blob:1"); loading := false;
               result := JNull; error := None |} in
  let big := {| fileSize := 10485761; fileType := lit "image/png" |} in
  let edge := {| fileSize := 10485760; fileType := lit "image/png" |} in
  selectedFile (handleFileChange (Some [edge]) (lit "blob:2") st) = Some edge
  ∧ selectedFile (handleFileChange (Some [big]) (lit "blob:2") st) = selectedFile st.
Proof.
  cbn zeta. split.
  - apply (proj1 (file_size_limit (λ _, lit "engine")
                    {| fileSize := 10485760; fileType := lit "image/png" |} []
                    (lit "blob:2") _ (Thrown ApiError) ReadFailed)).
    cbn. lia.
  - apply (proj2 (file_size_limit (λ _, lit "engine")
                    {| fileSize := 10485761; fileType := lit "image/png" |} []
                    (lit "blob:2") _ (Thrown ApiError) ReadFailed)).
    cbn. lia.
Defined.

Lemma url_tab_never_shows_error_witness :
  let st := {| activeTab := lit "URL"; inputText := lit " https://example.org ";
               selectedFile := None; previewUrl := None; loading := false;
               result := JNull; error := Some (lit "old") |} in
  let st' := handleAnalyze (λ _, lit "engine") (Thrown ApiError) ReadFailed st in
  error st' = None ∧ loading st' = false
  ∧ analyzeUrl (Thrown ApiError) = Returned (result st').
Proof.
  apply (url_tab_never_shows_error (λ _, lit "engine") (Thrown ApiError) ReadFailed);
    [reflexivity | by vm_compute].
Defined.

Lemma blank_input_refused_witness :
  let st := {| activeTab := lit "TEXT"; inputText := [32; 10; 160; 9]%N;
               selectedFile := None; previewUrl := None; loading := false;
               result := JNull; error := None |} in
  let st' := handleAnalyze (λ _, lit "engine") (textReply (Some examplePayload))
               ReadFailed st in
  result st' = JNull
  ∧ error st' = Some (if bool_decide (activeTab st = lit "URL")
                      then lit "Ingresa un enlace v" ++ a_acute :: lit "lido."
                      else lit "Ingresa texto.")
  ∧ ∀ reply' read', handleAnalyze (λ _, lit "engine") reply' read' st = st'.
Proof.
  apply (blank_input_refused (λ _, lit "engine")); [by right | reflexivity].
Defined.

Lemma shown_error_messages_witness :
  let st := {| activeTab := lit "IMAGE"; inputText := [];
               selectedFile := Some {| fileSize := 5; fileType := lit "image/png" |};
               previewUrl := Some (lit "blob:1"); loading := false;
               result := JNull; error := None |} in
  let read := ReadDone (lit "data:,") in
  let msg := lit "Error al analizar imagen." in
  result (handleAnalyze (λ _, lit "engine") (Thrown ApiError) read st) = JNull
  ∧ (msg ∈ validationMessages
     ∨ (activeTab st = lit "TEXT" ∧ msg = lit "Error al analizar texto.")
     ∨ (activeTab st = lit "IMAGE" ∧ msg = lit "Error al analizar imagen.")
     ∨ (activeTab st = lit "VIDEO" ∧ msg = lit "Error al analizar video.")
     ∨ (read = ReadFailed ∧ msg = lit "Error inesperado."
        ∧ (activeTab st = lit "IMAGE" ∨ activeTab st = lit "VIDEO"))).
Proof.
  cbn zeta.
  apply (shown_error_messages (λ _, lit "engine") (Thrown ApiError)
           (ReadDone (lit "data:,")) _ (lit "Error al analizar imagen.")).
  reflexivity.
Defined.

Lemma falsy_result_shows_nothing_witness :
  let st := {| activeTab := lit "TEXT"; inputText := lit "some text";
               selectedFile := None; previewUrl := None; loading := false;
               result := JNull; error := None |} in
  let st' := handleAnalyze (λ _, lit "engine") (textReply (Some (lit "1e-400")))
               ReadFailed st in
  error st' = None ∧ ResultCard (result st') (loading st') = Returned Nothing.
Proof.
  apply (falsy_result_shows_nothing (λ _, lit "engine") _ _ _
           (JNumber (Decimal false 1 (-400)))); by vm_compute.
Defined.
